(** * dde-daemon: the docked-application manager and the system-information probe

    A shallow embedding of [dock/docked_app_manager.go] and
    [systeminfo/system_info.go].  Go strings are byte strings ([string]);
    GSettings, the GLib key file, the file system and the D-Bus signal
    channel are explicit components of a world record that the methods
    thread through a small state-and-fault monad.  Calls to the logger are
    left out. *)

From stdpp Require Import base gmap list strings.
From Stdlib Require Import ZArith NArith Lia String Ascii DecimalString.

Local Open Scope string_scope.
Local Open Scope list_scope.

(** ** The functions of Go's [strings] and [strconv] the probe calls *)

Module GoStrings.

(** [strings.Contains s substr]. *)
Fixpoint Contains (s substr : string) : bool :=
  if String.prefix substr s then true
  else match s with
       | EmptyString => false
       | String _ rest => Contains rest substr
       end.

(** The loop of [strings.Split] for a non-empty separator: [skip] counts the
    bytes of a separator still to be passed over, [cur] is the piece being
    read. *)
Fixpoint splitFrom (sep s : string) (skip : nat) (cur : string) : list string :=
  match s with
  | EmptyString => [cur]
  | String c rest =>
      match skip with
      | S k => splitFrom sep rest k cur
      | O =>
          if String.prefix sep s
          then cur :: splitFrom sep rest (String.length sep - 1) EmptyString
          else splitFrom sep rest 0 (cur +:+ String c EmptyString)
      end
  end.

(** [strings.Split s sep]; every call site passes a one-byte separator. *)
Definition Split (s sep : string) : list string := splitFrom sep s 0 EmptyString.

(** [unicode.IsSpace] on the ASCII range. *)
Definition isSpace (c : ascii) : bool :=
  let n := nat_of_ascii c in
  ((9 <=? n)%nat && (n <=? 13)%nat) || (n =? 32)%nat.

Definition isEmpty (s : string) : bool :=
  match s with EmptyString => true | _ => false end.

Fixpoint fieldsFrom (s cur : string) : list string :=
  match s with
  | EmptyString => if isEmpty cur then [] else [cur]
  | String c rest =>
      if isSpace c
      then (if isEmpty cur then fieldsFrom rest EmptyString
            else cur :: fieldsFrom rest EmptyString)
      else fieldsFrom rest (cur +:+ String c EmptyString)
  end.

(** [strings.Fields s]. *)
Definition Fields (s : string) : list string := fieldsFrom s EmptyString.

Fixpoint trimLeft (s : string) : string :=
  match s with
  | EmptyString => EmptyString
  | String c rest => if isSpace c then trimLeft rest else s
  end.

Fixpoint trimRight (s : string) : string :=
  match s with
  | EmptyString => EmptyString
  | String c rest =>
      let r := trimRight rest in
      if isSpace c && isEmpty r then EmptyString else String c r
  end.

(** [strings.TrimSpace s]. *)
Definition TrimSpace (s : string) : string := trimRight (trimLeft s).

Definition maxUint64 : N := 2 ^ 64 - 1.

Definition digit (c : ascii) : option N :=
  let n := N_of_ascii c in
  if (48 <=? n)%N && (n <=? 57)%N then Some (n - 48)%N else None.

(** The digit loop of [strconv.ParseUint s 10 64]: the value and whether an
    error is returned with it.  A byte that is no digit gives [0] and a
    syntax error; a value past 64 bits gives [maxUint64] and a range error,
    at the digit where it overflows. *)
Fixpoint parseLoop (s : string) (n : N) : N * bool :=
  match s with
  | EmptyString => (n, false)
  | String c rest =>
      match digit c with
      | None => (0%N, true)
      | Some d =>
          if (maxUint64 / 10 + 1 <=? n)%N then (maxUint64, true)
          else
            let n1 := (n * 10 + d)%N in
            if (maxUint64 <? n1)%N then (maxUint64, true)
            else parseLoop rest n1
      end
  end.

Definition ParseUint (s : string) : N * bool :=
  if isEmpty s then (0%N, true) else parseLoop s 0%N.

(** [strconv.FormatInt (int64 n) 10] for a count [n]. *)
Definition FormatInt (n : nat) : string :=
  NilEmpty.string_of_uint (Nat.to_uint n).

End GoStrings.

(** ** systeminfo/system_info.go *)

Module SystemInfo.
Import GoStrings.

Definition _VERSION_ETC := "/etc/lsb-release".
Definition _VERSION_KEY := "DISTRIB_RELEASE".
Definition _PROC_CPU_INFO := "/proc/cpuinfo".
Definition _PROC_CPU_KEY := "model name".
Definition _PROC_MEM_INFO := "/proc/meminfo".
Definition _PROC_MEM_KEY := "MemTotal".

Definition newline : string := String (ascii_of_nat 10) EmptyString.

(** A path the file system knows is either readable, with its contents, or
    present but not readable ([os.Stat] does not answer "not exist", and
    [ioutil.ReadFile] fails).  A path outside the map does not exist. *)
Inductive File : Type :=
| Unreadable
| Contents (data : string).

Abbreviation FileSystem := (gmap string File).

Definition IsFileNotExist (fs : FileSystem) (filename : string) : bool :=
  match fs !! filename with
  | None => true
  | Some _ => false
  end.

(** [ioutil.ReadFile]: the contents, or [None] for an error. *)
Definition ReadFile (fs : FileSystem) (filename : string) : option string :=
  match fs !! filename with
  | Some (Contents data) => Some data
  | _ => None
  end.

(** The loop of [GetVersion]: the first line that contains the key decides. *)
Fixpoint versionLoop (lines : list string) : string :=
  match lines with
  | [] => ""
  | line :: rest =>
      if Contains line _VERSION_KEY
      then match Split line "=" with
           | _ :: v :: _ => v
           | _ => ""
           end
      else versionLoop rest
  end.

Definition GetVersion (fs : FileSystem) : string :=
  if IsFileNotExist fs _VERSION_ETC then ""
  else match ReadFile fs _VERSION_ETC with
       | None => ""
       | Some contents => versionLoop (Split contents newline)
       end.

(** The loop of [GetCpuInfo], with its two variables [info] and [cnt]. *)
Fixpoint cpuLoop (lines : list string) (info : string) (cnt : nat) : string * nat :=
  match lines with
  | [] => (info, cnt)
  | line :: rest =>
      if Contains line _PROC_CPU_KEY
      then match Split line ":" with
           | _ :: v :: _ =>
               cpuLoop rest (if isEmpty info then info +:+ v else info) (S cnt)
           | _ => (info, cnt)
           end
      else cpuLoop rest info cnt
  end.

Definition GetCpuInfo (fs : FileSystem) : string :=
  if IsFileNotExist fs _PROC_CPU_INFO then "Unknown"
  else match ReadFile fs _PROC_CPU_INFO with
       | None => ""
       | Some contents =>
           let '(info, cnt) := cpuLoop (Split contents newline) "" 0 in
           TrimSpace ((info +:+ " x ") +:+ FormatInt cnt)
       end.

(** The loop of [GetMemoryCap]; the error of [ParseUint] is dropped. *)
Fixpoint memLoop (lines : list string) : N :=
  match lines with
  | [] => 0%N
  | line :: rest =>
      if Contains line _PROC_MEM_KEY
      then match Fields line with
           | _ :: v :: _ => fst (ParseUint v)
           | _ => 0%N
           end
      else memLoop rest
  end.

(** [uint64] multiplication wraps around. *)
Definition GetMemoryCap (fs : FileSystem) : N :=
  if IsFileNotExist fs _PROC_MEM_INFO then 0%N
  else match ReadFile fs _PROC_MEM_INFO with
       | None => 0%N
       | Some contents => (memLoop (Split contents newline) * 1024) mod 2 ^ 64
       end.

(** [GetSystemType]: [out] is the output of [/bin/uname -m], [None] when the
    command fails. *)
Definition GetSystemType (out : option string) : Z :=
  match out with
  | None => 0%Z
  | Some o =>
      if Contains o "i386" || Contains o "i586" || Contains o "i686" then 32%Z
      else if Contains o "x86_64" then 64%Z
      else 0%Z
  end.

(** *** File systems to run the probe on *)

Definition lsbRelease : string :=
  "DISTRIB_ID=Deepin" +:+ newline +:+ "DISTRIB_RELEASE=15.4" +:+ newline.

Definition cpuinfo : string :=
  "model name" +:+ String (ascii_of_nat 9) ": Intel Core" +:+ newline +:+
  "flags: fpu" +:+ newline +:+
  "model name" +:+ String (ascii_of_nat 9) ": Intel Core" +:+ newline.

Definition meminfo : string :=
  "MemTotal:        8052456 kB" +:+ newline +:+ "MemFree: 1 kB" +:+ newline.

Definition machine : FileSystem :=
  {[ _VERSION_ETC := Contents lsbRelease;
     _PROC_CPU_INFO := Contents cpuinfo;
     _PROC_MEM_INFO := Contents meminfo ]}.

(** Only [/proc/cpuinfo] is there, and it cannot be read. *)
Definition lockedMachine : FileSystem := {[ _PROC_CPU_INFO := Unreadable ]}.

(** *** The disks *)

(** A D-Bus variant, as far as [GetDiskCap] asserts its type; the zero
    variant of a missing key holds no value and is a lookup that finds
    nothing. *)
Inductive Variant : Type :=
| VObjectPath (path : string)
| VBool (b : bool)
| VUint64 (n : N)
| VOther.

(** An object of UDisks2: interfaces, and in each interface properties. *)
Abbreviation Interfaces := (gmap string (gmap string Variant)).

(** The result of [GetManagedObjects]: objects by path. *)
Abbreviation ManagedObjects := (gmap string Interfaces).

(** A function returns a value or stops in a run-time panic (here a failed
    type assertion). *)
Inductive Run (A : Type) : Type :=
| Returns (a : A)
| Panics.
Arguments Returns {A} a.
Arguments Panics {A}.

(** The inner loop over [driList]. *)
Fixpoint inDriList (path : string) (driList : list string) : bool :=
  match driList with
  | [] => false
  | d :: rest => if String.eqb d path then true else inDriList path rest
  end.

(** The first loop of [GetDiskCap], over the values of the map in the order
    the iteration visits them. *)
Fixpoint collectDrives (values : list Interfaces) (driList : list string)
  : Run (list string) :=
  match values with
  | [] => Returns driList
  | value :: rest =>
      match value !! "org.freedesktop.UDisks2.Block" with
      | None => collectDrives rest driList
      | Some block =>
          match block !! "Drive" with
          | Some (VObjectPath path) =>
              if negb (String.eqb path "/")
              then if inDriList path driList
                   then collectDrives rest driList
                   else collectDrives rest (driList ++ [path])
              else collectDrives rest driList
          | _ => Panics
          end
      end
  end.

Definition driveProperty (managers : ManagedObjects) (driver property : string)
  : option Variant :=
  match managers !! driver with
  | None => None
  | Some object =>
      match object !! "org.freedesktop.UDisks2.Drive" with
      | None => None
      | Some properties => properties !! property
      end
  end.

(** The second loop of [GetDiskCap]; [uint64] addition wraps around. *)
Fixpoint sumDrives (managers : ManagedObjects) (driList : list string) (diskCap : N)
  : Run N :=
  match driList with
  | [] => Returns diskCap
  | driver :: rest =>
      match managers !! driver with
      | None => sumDrives managers rest diskCap
      | Some _ =>
          match driveProperty managers driver "Removable" with
          | Some (VBool true) => sumDrives managers rest diskCap
          | Some (VBool false) =>
              match driveProperty managers driver "Size" with
              | Some (VUint64 size) =>
                  sumDrives managers rest ((diskCap + size) mod 2 ^ 64)
              | _ => Panics
              end
          | _ => Panics
          end
      end
  end.

(** [GetDiskCap].  [udisks] is [None] when [NewObjectManager] fails, and
    the managed objects otherwise (none when [GetManagedObjects] fails, its
    error being dropped).  Go visits a map in no fixed order: [order] is the
    order in which this run visits [managers]. *)
Definition GetDiskCap (udisks : option ManagedObjects)
    (order : list (string * Interfaces)) : Run N :=
  match udisks with
  | None => Returns 0%N
  | Some managers =>
      match collectDrives (map snd order) [] with
      | Panics => Panics
      | Returns driList => sumDrives managers driList 0%N
      end
  end.

(** *** Words for the statements on the probe *)

(** The second piece of a line cut at [sep], empty when there is none. *)
Definition secondPiece (line sep : string) : string :=
  nth 1 (Split line sep) "".





(** What the first loop finds in an object: no block device, a block device
    with the path of its drive, or a block device whose [Drive] is missing
    or is no object path. *)
Inductive BlockDrive : Type :=
| NotBlock
| DriveAt (path : string)
| BadDrive.

Definition blockDrive (value : Interfaces) : BlockDrive :=
  match value !! "org.freedesktop.UDisks2.Block" with
  | None => NotBlock
  | Some block =>
      match block !! "Drive" with
      | Some (VObjectPath path) => DriveAt path
      | _ => BadDrive
      end
  end.

(** What the second loop does with a drive path: pass over it, add a size,
    or fail a type assertion. *)
Inductive DriveKind : Type :=
| PassOver
| AddSize (size : N)
| BadProperty.

Definition driveKind (managers : ManagedObjects) (driver : string) : DriveKind :=
  match managers !! driver with
  | None => PassOver
  | Some _ =>
      match driveProperty managers driver "Removable" with
      | Some (VBool true) => PassOver
      | Some (VBool false) =>
          match driveProperty managers driver "Size" with
          | Some (VUint64 size) => AddSize size
          | _ => BadProperty
          end
      | _ => BadProperty
      end
  end.

(** The size a drive path stands for in the sum: its [Size] when it is a
    managed drive that is not removable, nothing otherwise. *)
Definition driveSize (managers : ManagedObjects) (driver : string) : N :=
  match driveKind managers driver with
  | AddSize size => size
  | _ => 0%N
  end.

Definition totalSize (managers : ManagedObjects) (driList : list string) : N :=
  fold_right (fun driver total => (driveSize managers driver + total)%N) 0%N driList.

(** Two disks and a removable stick; each disk has two block devices. *)
Definition drive (removable : bool) (size : N) : Interfaces :=
  {[ "org.freedesktop.UDisks2.Drive" :=
       {[ "Removable" := VBool removable; "Size" := VUint64 size ]} ]}.

Definition blockOf (drivePath : string) : Interfaces :=
  {[ "org.freedesktop.UDisks2.Block" := {[ "Drive" := VObjectPath drivePath ]} ]}.

Definition sampleObjects : list (string * Interfaces) :=
  [ ("/drives/sda", drive false 500107862016);
    ("/drives/sdb", drive false 1000204886016);
    ("/drives/usb", drive true 16008609792);
    ("/block/sda", blockOf "/drives/sda");
    ("/block/sda1", blockOf "/drives/sda");
    ("/block/sdb", blockOf "/drives/sdb");
    ("/block/sdb1", blockOf "/drives/sdb");
    ("/block/sdc", blockOf "/drives/usb");
    ("/block/loop0", blockOf "/") ].

Definition sampleManagers : ManagedObjects := list_to_map sampleObjects.

End SystemInfo.

(** ** dock/docked_app_manager.go *)

Module Dock.
Import GoStrings.

Definition dockSchema : string := "com.deepin.dde.dock".
Definition settingKeyDockedApps : string := "docked-apps".

(** *** Helpers of package [dock] that live outside this file *)

(** Modelled from the spec: [isStrInSlice], the list helper behind the
    membership query, is missing from the sources at hand; the spec has it as
    a lookup in the list, with exact string match as equality. *)
Fixpoint isStrInSlice (str : string) (slice : list string) : bool :=
  match slice with
  | [] => false
  | e :: rest => if String.eqb e str then true else isStrInSlice str rest
  end.

(** Modelled from the spec: [strSliceEqual] is missing from the sources at
    hand; the spec has it compare the two lists element by element, in
    order. *)
Fixpoint strSliceEqual (sa sb : list string) : bool :=
  match sa, sb with
  | [], [] => true
  | a :: ra, b :: rb => String.eqb a b && strSliceEqual ra rb
  | _, _ => false
  end.

Fixpoint uniqLoop (slice acc : list string) : list string :=
  match slice with
  | [] => acc
  | e :: rest => uniqLoop rest (if isStrInSlice e acc then acc else acc ++ [e])
  end.

(** Modelled from the spec: [uniqStrSlice] is missing from the sources at
    hand; the spec has it remove the repeated ids and keep the order of the
    first occurrences. *)
Definition uniqStrSlice (slice : list string) : list string := uniqLoop slice [].

(** The ids of [l] that are not in [seen], each at its first occurrence:
    what one pass of the loop adds to its accumulator. *)
Fixpoint freshOf (seen l : list string) : list string :=
  match l with
  | [] => []
  | x :: rest =>
      if isStrInSlice x seen then freshOf seen rest
      else x :: freshOf (seen ++ [x]) rest
  end.

(** *** The GLib key file of the old configuration *)

(** Groups, and in each group keys with their raw values. *)
Abbreviation KeyFile := (gmap string (gmap string string)).

Inductive KeyFileError : Type :=
| GroupNotFound
| KeyNotFound
| InvalidValue.

Inductive result (A : Type) : Type :=
| Ok (a : A)
| Err (e : KeyFileError).
Arguments Ok {A} a.
Arguments Err {A} e.

Definition rawValue (conf : KeyFile) (group key : string) : result string :=
  match conf !! group with
  | None => Err GroupNotFound
  | Some g =>
      match g !! key with
      | None => Err KeyNotFound
      | Some v => Ok v
      end
  end.

(** [g_key_file_get_boolean]: [true]/[1] and [false]/[0] are the booleans. *)
Definition keyFileGetBoolean (conf : KeyFile) (group key : string) : result bool :=
  match rawValue conf group key with
  | Err e => Err e
  | Ok v =>
      if String.eqb v "true" || String.eqb v "1" then Ok true
      else if String.eqb v "false" || String.eqb v "0" then Ok false
      else Err InvalidValue
  end.

Definition dropLastEmpty (l : list string) : list string :=
  match reverse l with
  | EmptyString :: r => reverse r
  | _ => l
  end.

(** [g_key_file_get_string_list]: the value is cut at each [;], the last one
    being optional (escape sequences are left as they are). *)
Definition keyFileGetStringList (conf : KeyFile) (group key : string)
  : result (list string) :=
  match rawValue conf group key with
  | Err e => Err e
  | Ok v => Ok (dropLastEmpty (Split v ";"))
  end.

Definition keyFileGetString (conf : KeyFile) (group key : string) : result string :=
  rawValue conf group key.

Definition keyFileSetBoolean (conf : KeyFile) (group key : string) (b : bool)
  : KeyFile :=
  <[group := <[key := if b then "true" else "false"]> (default ∅ (conf !! group))]> conf.

(** The value of [v, _ := conf.GetString(...)]: empty on an error. *)
Definition orEmpty (r : result string) : string :=
  match r with
  | Ok v => v
  | Err _ => ""
  end.

(** *** Applications and dock entries *)

Record AppInfo : Type := { GetId : string }.

(** [entry.appInfo] is a pointer; [None] is [nil]. *)
Record AppEntry : Type := { appInfo : option AppInfo }.

(** *** The dock manager behind [m.dockManager] *)

(** Modelled from the spec: type [DockManager] with [requestDock],
    [undockEntryByAppId] and [getDockedAppList] is missing from the sources
    at hand.  The spec has it as the live authority DockState: it answers
    with its current docked ids, accepts or rejects a dock or an undock, and
    rejects the undock of an id that is not currently docked.  An accepted
    dock hands over the entry that [dockAppEntry] receives. *)
Class DockState (DS : Type) : Type := {
  CurrentDockedIds : DS -> list string;
  DockStateDock : DS -> string -> string -> string -> string -> option (DS * AppEntry);
  DockStateUndock : DS -> string -> option DS;
  undock_not_docked :
    forall ds id, isStrInSlice id (CurrentDockedIds ds) = false ->
                  DockStateUndock ds id = None
}.

(** *** What the methods do to the outside *)

Inductive Event : Type :=
| BackendGet (schema key : string)
| BackendSet (schema key : string) (value : list string)
| BackendSync
| Signal (name id : string)
| QueryDockState
| DelegateDock (id title icon cmd : string)
| DelegateUndock (id : string)
| LegacyLoad
| LegacyRead (group key : string)
| LegacyWrite (mode : N)
| ScratchDesktopFile (id title icon exec : string)
| SettingsUnref (schema : string)
| UnInstallObject.

(** The fields of [DockedAppManager] that hold data; [settings] is the
    schema the handle is bound to, [None] for a [nil] handle, and the
    [nil] slice is the empty list. *)
Record DockedAppManager : Type := {
  settings : option string;
  dockedAppList : list string
}.

(** A method either returns or stops in a run-time panic. *)
Inductive Res (A : Type) : Type :=
| Done (a : A)
| Panic.
Arguments Done {A} a.
Arguments Panic {A}.

Section Manager.
Context {DS : Type} `{!DockState DS}.

(** The manager [m], the dock manager it points to, and the environment:
    - [schemas]: the installed GSettings schemas with their stored values;
    - [confFile]: the key file in [dock/apps.ini], [None] when
      [LoadFromFile] fails (no file, or one that cannot be read or parsed);
    - [confMode]: what [os.Lstat] says of it;
    - [confWritable]: whether [ioutil.WriteFile] succeeds on it;
    - [confSerializable]: whether [ToData] succeeds;
    - [installed]: the ids [NewAppInfo] finds an application for;
    - [log]: the calls made to the outside, oldest first. *)
Record World : Type := {
  manager : DockedAppManager;
  dockState : DS;
  schemas : gmap string (gmap string (list string));
  confFile : option KeyFile;
  confMode : option N;
  confWritable : bool;
  confSerializable : bool;
  installed : list string;
  log : list Event
}.

Definition setManager (m : DockedAppManager) (w : World) : World :=
  {| manager := m; dockState := dockState w; schemas := schemas w;
     confFile := confFile w; confMode := confMode w;
     confWritable := confWritable w; confSerializable := confSerializable w;
     installed := installed w; log := log w |}.

Definition setDockState (ds : DS) (w : World) : World :=
  {| manager := manager w; dockState := ds; schemas := schemas w;
     confFile := confFile w; confMode := confMode w;
     confWritable := confWritable w; confSerializable := confSerializable w;
     installed := installed w; log := log w |}.

Definition setSchemas (s : gmap string (gmap string (list string))) (w : World)
  : World :=
  {| manager := manager w; dockState := dockState w; schemas := s;
     confFile := confFile w; confMode := confMode w;
     confWritable := confWritable w; confSerializable := confSerializable w;
     installed := installed w; log := log w |}.

Definition setConfFile (f : option KeyFile) (w : World) : World :=
  {| manager := manager w; dockState := dockState w; schemas := schemas w;
     confFile := f; confMode := confMode w;
     confWritable := confWritable w; confSerializable := confSerializable w;
     installed := installed w; log := log w |}.

Definition extendLog (delta : list Event) (w : World) : World :=
  {| manager := manager w; dockState := dockState w; schemas := schemas w;
     confFile := confFile w; confMode := confMode w;
     confWritable := confWritable w; confSerializable := confSerializable w;
     installed := installed w; log := log w ++ delta |}.

Definition record (e : Event) (w : World) : World := extendLog [e] w.

Definition M (A : Type) : Type := World -> Res A * World.

Definition ret {A : Type} (a : A) : M A := fun w => (Done a, w).

Definition bind {A B : Type} (c : M A) (k : A -> M B) : M B :=
  fun w =>
    match c w with
    | (Done a, w') => k a w'
    | (Panic, w') => (Panic, w')
    end.

Definition panic {A : Type} : M A := fun w => (Panic, w).
Definition get : M World := fun w => (Done w, w).
Definition modify (f : World -> World) : M unit := fun w => (Done tt, f w).
Definition emit (e : Event) : M unit := modify (record e).

Notation "'do' x <- c ; k" := (bind c (fun x => k))
  (at level 10, x name, c at level 100, k at level 200).
Notation "c ;; k" := (bind c (fun _ => k))
  (at level 100, k at level 200, right associativity).

Fixpoint forEach {A : Type} (l : list A) (body : A -> M unit) : M unit :=
  match l with
  | [] => ret tt
  | x :: rest => body x ;; forEach rest body
  end.

(** *** GSettings *)

(** [gio.NewSettings]: a handle when the schema is installed, [nil]
    otherwise. *)
Definition NewSettings (schema : string) : M (option string) :=
  do w <- get;
  ret (match schemas w !! schema with
       | Some _ => Some schema
       | None => None
       end).

Definition storedStrv (w : World) (schema key : string) : list string :=
  default [] (schemas w !! schema ≫= (.!! key)).

Definition putStrv (schema key : string) (value : list string)
    (s : gmap string (gmap string (list string)))
  : gmap string (gmap string (list string)) :=
  <[schema := <[key := value]> (default ∅ (s !! schema))]> s.

(** The binding itself is outside this repository.  A method called through
    the [nil] handle is taken to end in a panic, the nil dereference that the
    checks of [init] and [destroy] guard against. *)
Definition GetStrv (handle : option string) (key : string) : M (list string) :=
  match handle with
  | None => panic
  | Some schema =>
      emit (BackendGet schema key) ;;
      do w <- get;
      ret (storedStrv w schema key)
  end.

Definition SetStrv (handle : option string) (key : string) (value : list string)
  : M unit :=
  match handle with
  | None => panic
  | Some schema =>
      emit (BackendSet schema key value) ;;
      modify (fun w => setSchemas (putStrv schema key value (schemas w)) w)
  end.

Definition SettingsSync : M unit := emit BackendSync.

(** *** The old configuration file and the installed applications *)

Definition LoadFromFile : M (option KeyFile) :=
  emit LegacyLoad ;;
  do w <- get;
  ret (confFile w).

Definition GetBoolean (conf : KeyFile) (group key : string) : M (result bool) :=
  emit (LegacyRead group key) ;;
  ret (keyFileGetBoolean conf group key).

Definition GetStringList (conf : KeyFile) (group key : string)
  : M (result (list string)) :=
  emit (LegacyRead group key) ;;
  ret (keyFileGetStringList conf group key).

Definition GetString (conf : KeyFile) (group key : string) : M (result string) :=
  emit (LegacyRead group key) ;;
  ret (keyFileGetString conf group key).

(** [conf.ToData]: the key file as it will be written, or an error. *)
Definition ToData (conf : KeyFile) : M (option KeyFile) :=
  do w <- get;
  ret (if confSerializable w then Some conf else None).

Definition Lstat : M (option N) :=
  do w <- get;
  ret (confMode w).

(** [ioutil.WriteFile] on the configuration file; [true] for an error. *)
Definition WriteFile (content : KeyFile) (mode : N) : M bool :=
  emit (LegacyWrite mode) ;;
  do w <- get;
  if confWritable w
  then modify (setConfFile (Some content)) ;; ret false
  else ret true.

(** [NewAppInfo id]: [nil] when no application is installed under [id]. *)
Definition NewAppInfo (id : string) : M (option AppInfo) :=
  do w <- get;
  ret (if isStrInSlice id (installed w) then Some {| GetId := id |} else None).

(** [createScratchDesktopFile]: its body is outside this file; the call is
    recorded. *)
Definition createScratchDesktopFile (id title icon exec : string) : M unit :=
  emit (ScratchDesktopFile id title icon exec).

(** *** The methods of [DockedAppManager] *)

Definition getManager : M DockedAppManager :=
  do w <- get;
  ret (manager w).

Definition setSettings (h : option string) : M unit :=
  modify (fun w =>
    setManager {| settings := h; dockedAppList := dockedAppList (manager w) |} w).

Definition setDockedAppList (apps : list string) : M unit :=
  modify (fun w =>
    setManager {| settings := settings (manager w); dockedAppList := apps |} w).

Definition emitSignal (name id : string) : M unit := emit (Signal name id).

Definition saveAppList (apps : list string) : M unit :=
  do m <- getManager;
  SetStrv (settings m) settingKeyDockedApps apps ;;
  SettingsSync.

(** The body of the loop over the ids of the old configuration. *)
Definition migrateEntry (conf : KeyFile) (id : string) : M unit :=
  do a <- NewAppInfo id;
  match a with
  | Some _ => ret tt
  | None =>
      do exec <- GetString conf id "CmdLine";
      do icon <- GetString conf id "Icon";
      do title <- GetString conf id "Name";
      createScratchDesktopFile id (orEmpty title) (orEmpty icon) (orEmpty exec)
  end.

Definition handleOldConfigFile : M unit :=
  do loaded <- LoadFromFile;
  match loaded with
  | None => ret tt
  | Some conf =>
      do inited <- GetBoolean conf "__Config__" "inited";
      match inited with
      | Ok true => ret tt
      | _ =>
          do position <- GetStringList conf "__Config__" "Position";
          match position with
          | Err _ => ret tt
          | Ok ids =>
              let ids := uniqStrSlice ids in
              forEach ids (migrateEntry conf) ;;
              saveAppList ids ;;
              let conf := keyFileSetBoolean conf "__Config__" "inited" true in
              do content <- ToData conf;
              match content with
              | None => ret tt
              | Some content =>
                  do stat <- Lstat;
                  let mode := match stat with
                              | Some mode => mode
                              | None => 438%N
                              end in
                  do _ <- WriteFile content mode;
                  ret tt
              end
          end
      end
  end.

Definition init : M unit :=
  do s <- NewSettings dockSchema;
  setSettings s ;;
  match s with
  | None => ret tt
  | Some _ =>
      handleOldConfigFile ;;
      do m <- getManager;
      do stored <- GetStrv (settings m) settingKeyDockedApps;
      setDockedAppList (uniqStrSlice stored) ;;
      do m <- getManager;
      saveAppList (dockedAppList m)
  end.

(** [NewDockedAppManager]: a fresh manager, then [init]. *)
Definition NewDockedAppManager : M unit :=
  modify (setManager {| settings := None; dockedAppList := [] |}) ;;
  init.



Definition IsDocked (appId : string) : M bool :=
  do m <- getManager;
  ret (isStrInSlice appId (dockedAppList m)).

Definition getDockedAppList : M (list string) :=
  emit QueryDockState ;;
  do w <- get;
  ret (CurrentDockedIds (dockState w)).

Definition saveDockedAppList : M unit :=
  do apps <- getDockedAppList;
  do m <- getManager;
  if negb (strSliceEqual (dockedAppList m) apps)
  then saveAppList apps ;; setDockedAppList apps
  else ret tt.

Definition dockAppEntry (entry : AppEntry) : M bool :=
  match appInfo entry with
  | None => ret false
  | Some info =>
      saveDockedAppList ;;
      let appId := GetId info in
      emitSignal "Docked" appId ;;
      ret true
  end.

Definition undockAppEntry (appId : string) : M bool :=
  saveDockedAppList ;;
  emitSignal "Undocked" appId ;;
  ret true.

(** Modelled from the spec: [DockManager.requestDock] is missing from the
    sources at hand.  The spec has the request delegated to DockState; a
    rejected request changes nothing and is answered [false], an accepted one
    goes on to [dockAppEntry] with the entry and is answered with its
    result. *)
Definition requestDock (id title icon cmd : string) : M bool :=
  emit (DelegateDock id title icon cmd) ;;
  do w <- get;
  match DockStateDock (dockState w) id title icon cmd with
  | None => ret false
  | Some (ds, entry) => modify (setDockState ds) ;; dockAppEntry entry
  end.

(** Modelled from the spec: [DockManager.undockEntryByAppId] is missing from
    the sources at hand.  The spec has the request delegated to DockState; a
    rejected request changes nothing and is answered [false], an accepted one
    goes on to [undockAppEntry] and is answered with its result. *)
Definition undockEntryByAppId (id : string) : M bool :=
  emit (DelegateUndock id) ;;
  do w <- get;
  match DockStateUndock (dockState w) id with
  | None => ret false
  | Some ds => modify (setDockState ds) ;; undockAppEntry id
  end.

Definition RequestDock (id title icon cmd : string) : M bool :=
  requestDock id title icon cmd.

Definition RequestUndock (id : string) : M bool :=
  undockEntryByAppId id.

Definition Dock (id title icon cmd : string) : M bool :=
  RequestDock id title icon cmd.

Definition Undock (id : string) : M bool :=
  RequestUndock id.

Definition ReqeustDock (id title icon cmd : string) : M bool :=
  RequestDock id title icon cmd.

Definition Sort (_ : list string) : M unit := ret tt.

(** The two requests of the public interface, as one type. *)
Inductive Request : Type :=
| DockRequest (id title icon cmd : string)
| UndockRequest (id : string).

Definition serve (r : Request) : M bool :=
  match r with
  | DockRequest id title icon cmd => RequestDock id title icon cmd
  | UndockRequest id => RequestUndock id
  end.

(** What a request records when it is handed to the dock manager. *)
Definition delegation (r : Request) : Event :=
  match r with
  | DockRequest id title icon cmd => DelegateDock id title icon cmd
  | UndockRequest id => DelegateUndock id
  end.

(** The signal a served request raises. *)
Definition signalName (r : Request) : string :=
  match r with
  | DockRequest _ _ _ _ => "Docked"
  | UndockRequest _ => "Undocked"
  end.

(** *** Reading a world and its log *)

Definition isBackendWrite (e : Event) : bool :=
  match e with
  | BackendSet _ _ _ => true
  | _ => false
  end.

Definition isSignal (e : Event) : bool :=
  match e with
  | Signal _ _ => true
  | _ => false
  end.

Definition isLegacyRead (e : Event) : bool :=
  match e with
  | LegacyLoad | LegacyRead _ _ => true
  | _ => false
  end.

(** The two reads that check the migration flag: loading the file and
    reading [inited]. *)
Definition isFlagCheck (e : Event) : bool :=
  match e with
  | LegacyLoad => true
  | LegacyRead group key => String.eqb group "__Config__" && String.eqb key "inited"
  | _ => false
  end.

Definition backendWrites (l : list Event) : list Event := List.filter isBackendWrite l.
Definition signals (l : list Event) : list Event := List.filter isSignal l.
Definition readsBeyondFlag (l : list Event) : list Event :=
  List.filter (fun e => isLegacyRead e && negb (isFlagCheck e)) l.

(** What the loop over the old ids may do: read the old configuration and
    create scratch desktop files. *)
Definition isMigrationStep (e : Event) : bool :=
  match e with
  | LegacyRead _ _ | ScratchDesktopFile _ _ _ _ => true
  | _ => false
  end.

(** The migration flag as it stands in the old configuration file. *)
Definition migrationFlag (w : World) : bool :=
  match confFile w with
  | None => false
  | Some conf =>
      match keyFileGetBoolean conf "__Config__" "inited" with
      | Ok true => true
      | _ => false
      end
  end.

(** The world after the flag was checked and nothing else was done. *)
Definition flagChecked (w : World) : World :=
  record (LegacyRead "__Config__" "inited") (record LegacyLoad w).

(** The world after a migration of the ids [ids] of the old configuration
    [conf], through a handle on [schema]; [delta] is what the loop over the
    ids did. *)
Definition migratedWorld (schema : string) (conf : KeyFile) (ids : list string)
    (delta : list Event) (w : World) : World :=
  let w1 := extendLog delta (record (LegacyRead "__Config__" "Position") (flagChecked w)) in
  let w2 := record BackendSync
              (setSchemas (putStrv schema settingKeyDockedApps ids (schemas w1))
                 (record (BackendSet schema settingKeyDockedApps ids) w1)) in
  if confSerializable w
  then
    let mode := match confMode w with
                | Some mode => mode
                | None => 438%N
                end in
    let w3 := record (LegacyWrite mode) w2 in
    if confWritable w
    then setConfFile (Some (keyFileSetBoolean conf "__Config__" "inited" true)) w3
    else w3
  else w2.

(** The world in which [init] calls [handleOldConfigFile]: a fresh manager
    with its handle. *)
Definition handleAcquired (w : World) : World :=
  setManager {| settings := Some dockSchema; dockedAppList := [] |} w.

(** The end of [init], from the world [w1] that [handleOldConfigFile] left:
    the stored ids are read, deduplicated, cached and written back. *)
Definition loadedAndSaved (w1 : World) : World :=
  let ids := uniqStrSlice (storedStrv w1 dockSchema settingKeyDockedApps) in
  record BackendSync
    (setSchemas (putStrv dockSchema settingKeyDockedApps ids (schemas w1))
       (record (BackendSet dockSchema settingKeyDockedApps ids)
          (setManager {| settings := Some dockSchema; dockedAppList := ids |}
             (record (BackendGet dockSchema settingKeyDockedApps) w1)))).

(** The list the docked apps are persisted as. *)
Definition persisted (w : World) : list string :=
  storedStrv w dockSchema settingKeyDockedApps.

(** The sequence of ids a start-up works from: the ids of the old
    configuration when the migration runs, the stored ids otherwise. *)
Definition startupInput (w : World) : list string :=
  match confFile w with
  | None => persisted w
  | Some conf =>
      match keyFileGetBoolean conf "__Config__" "inited" with
      | Ok true => persisted w
      | _ =>
          match keyFileGetStringList conf "__Config__" "Position" with
          | Err _ => persisted w
          | Ok ids => ids
          end
      end
  end.

(** The state of the dock manager with which a request reaches the sync:
    the request was accepted, and for a dock the entry has its application. *)
Definition syncState (r : Request) (w : World) : option DS :=
  match r with
  | DockRequest id title icon cmd =>
      match DockStateDock (dockState w) id title icon cmd with
      | Some (ds, entry) =>
          match appInfo entry with
          | Some _ => Some ds
          | None => None
          end
      | None => None
      end
  | UndockRequest id => DockStateUndock (dockState w) id
  end.

End Manager.

Arguments World DS : clear implicits.
Arguments M DS A : clear implicits.

Definition isScratch (e : Event) : bool :=
  match e with
  | ScratchDesktopFile _ _ _ _ => true
  | _ => false
  end.

Definition isLegacyWrite (e : Event) : bool :=
  match e with
  | LegacyWrite _ => true
  | _ => false
  end.

(** The scratch desktop file the migration creates for [id] from the old
    configuration [conf]. *)
Definition scratchFor (conf : KeyFile) (id : string) : Event :=
  ScratchDesktopFile id
    (orEmpty (keyFileGetString conf id "Name"))
    (orEmpty (keyFileGetString conf id "Icon"))
    (orEmpty (keyFileGetString conf id "CmdLine")).

(** What the loop of the migration does for one id, given the ids with an
    installed application. *)
Definition entrySteps (conf : KeyFile) (installedIds : list string) (id : string)
  : list Event :=
  if isStrInSlice id installedIds then []
  else [LegacyRead id "CmdLine"; LegacyRead id "Icon"; LegacyRead id "Name";
        scratchFor conf id].

(** The position of the first occurrence of [id] in [l]. *)
Fixpoint firstIndex (id : string) (l : list string) : nat :=
  match l with
  | [] => 0
  | x :: rest => if decide (x = id) then 0 else S (firstIndex id rest)
  end.

(** *** A dock manager to run the methods with *)

(** The docked ids and the ids of the applications it knows.  It rejects the
    dock of a docked id; an id it does not know is accepted when a command
    line comes with it, and gets an entry without application otherwise. *)
Record ListDock : Type := {
  docked : list string;
  known : list string
}.

Definition listDockDock (ds : ListDock) (id title icon cmd : string)
  : option (ListDock * AppEntry) :=
  if isStrInSlice id (docked ds) then None
  else if isStrInSlice id (known ds) || negb (isEmpty cmd)
       then Some ({| docked := docked ds ++ [id]; known := known ds |},
                  {| appInfo := Some {| GetId := id |} |})
       else Some (ds, {| appInfo := None |}).

Definition listDockUndock (ds : ListDock) (id : string) : option ListDock :=
  if isStrInSlice id (docked ds)
  then Some {| docked := List.filter (fun x => negb (String.eqb x id)) (docked ds);
               known := known ds |}
  else None.

#[export] Instance listDockState : DockState ListDock.
Proof.
  refine {| CurrentDockedIds := docked;
            DockStateDock := listDockDock;
            DockStateUndock := listDockUndock |}.
  intros ds id Hid. unfold listDockUndock. rewrite Hid. reflexivity.
Defined.

Definition oneKey (key : string) (value : list string)
  : gmap string (gmap string (list string)) :=
  {[ dockSchema := {[ key := value ]} ]}.

(** The old configuration of two applications, [a] listed twice. *)
Definition oldConf : KeyFile :=
  {[ "__Config__" := {[ "Position" := "a;a;b;" ]};
     "a" := {[ "CmdLine" := "/usr/bin/a"; "Icon" := "a.png"; "Name" := "A" ]} ]}.

(** An old configuration with neither the flag nor the list of ids. *)
Definition bareConf : KeyFile := {[ "__Config__" := ∅ ]}.

Definition mkWorld (ds : ListDock) (s : gmap string (gmap string (list string)))
    (conf : option KeyFile) (writable : bool) : World ListDock :=
  {| manager := {| settings := None; dockedAppList := [] |};
     dockState := ds; schemas := s; confFile := conf;
     confMode := Some 420%N; confWritable := writable;
     confSerializable := true; installed := ["b"]; log := [] |}.

(** The backend holds [x; y], the dock holds the same, no old file. *)
Definition worldXY : World ListDock :=
  mkWorld {| docked := ["x"; "y"]; known := ["x"; "y"] |}
          (oneKey settingKeyDockedApps ["x"; "y"]) None true.

(** The backend holds [b; b; c], an old file waits to be migrated. *)
Definition worldOld : World ListDock :=
  mkWorld {| docked := []; known := ["b"] |}
          (oneKey settingKeyDockedApps ["b"; "b"; "c"]) (Some oldConf) true.

(** The same, but the old file cannot be written. *)
Definition worldOldReadOnly : World ListDock :=
  mkWorld {| docked := []; known := ["b"] |}
          (oneKey settingKeyDockedApps ["b"; "b"; "c"]) (Some oldConf) false.

(** No old file at all. *)
Definition worldNoFile : World ListDock :=
  mkWorld {| docked := []; known := ["b"] |}
          (oneKey settingKeyDockedApps ["b"; "b"; "c"]) None true.

(** The schema of the dock is not installed. *)
Definition worldNoBackend : World ListDock :=
  mkWorld {| docked := []; known := ["b"] |} ∅ None true.

(** The backend holds [x; y], the dock holds [z] only, no old file. *)
Definition worldApart : World ListDock :=
  mkWorld {| docked := ["z"]; known := ["z"] |}
          (oneKey settingKeyDockedApps ["x"; "y"]) None true.

(** An old file with neither flag nor list of ids. *)
Definition worldBare : World ListDock :=
  mkWorld {| docked := []; known := ["b"] |}
          (oneKey settingKeyDockedApps ["b"; "b"; "c"]) (Some bareConf) true.

(** A manager that has started on [worldXY]. *)
Definition worldReady : World ListDock := snd (NewDockedAppManager worldXY).

(** The same manager, after the dock has moved on to [x; y; z] by itself. *)
Definition worldDrift : World ListDock :=
  setDockState {| docked := ["x"; "y"; "z"]; known := ["x"; "y"] |} worldReady.

End Dock.


(** * Properties *)

(** ** The string functions on the lines the probe reads *)

Module GoStringsFacts.
Import GoStrings.

Example Split_eq : Split "DISTRIB_RELEASE=15.4" "=" = ["DISTRIB_RELEASE"; "15.4"].
Proof. reflexivity. Qed.

Example Split_empty : Split "" "=" = [""].
Proof. reflexivity. Qed.

Example Split_trailing : Split "a;b;" ";" = ["a"; "b"; ""].
Proof. reflexivity. Qed.

Example Fields_mem :
  Fields "MemTotal:        8052456 kB" = ["MemTotal:"; "8052456"; "kB"].
Proof. reflexivity. Qed.

Example ParseUint_range : ParseUint "18446744073709551616" = (maxUint64, true).
Proof. vm_compute. reflexivity. Qed.

Example ParseUint_max : ParseUint "18446744073709551615" = (maxUint64, false).
Proof. vm_compute. reflexivity. Qed.

Example ParseUint_syntax : ParseUint "12kB" = (0%N, true).
Proof. vm_compute. reflexivity. Qed.

Example TrimSpace_ex : TrimSpace "  Intel Core  x 4 " = "Intel Core  x 4".
Proof. reflexivity. Qed.

Example FormatInt_ex : FormatInt 12 = "12".
Proof. reflexivity. Qed.

End GoStringsFacts.

(** ** The probe *)

Module SystemInfoFacts.
Import GoStrings SystemInfo.

Example GetVersion_machine : GetVersion machine = "15.4".
Proof. vm_compute. reflexivity. Qed.

Example GetCpuInfo_machine : GetCpuInfo machine = "Intel Core x 2".
Proof. vm_compute. reflexivity. Qed.

Example GetMemoryCap_machine : GetMemoryCap machine = 8245714944%N.
Proof. vm_compute. reflexivity. Qed.

Lemma ReadFile_absent (fs : FileSystem) (path : string) :
  IsFileNotExist fs path = true -> ReadFile fs path = None.
Proof.
  unfold IsFileNotExist, ReadFile. destruct (fs !! path); [discriminate | reflexivity].
Qed.

(** C9, as the code has it: when its file is absent or cannot be read,
    [GetVersion] returns the empty string and [GetMemoryCap] returns 0;
    [GetCpuInfo] returns the empty string when [/proc/cpuinfo] is there but
    cannot be read, and the string [Unknown] when it is absent. *)
Theorem C9_probe_on_failure (fs : FileSystem) :
  (ReadFile fs _VERSION_ETC = None -> GetVersion fs = "") /\
  (ReadFile fs _PROC_MEM_INFO = None -> GetMemoryCap fs = 0%N) /\
  (fs !! _PROC_CPU_INFO = Some Unreadable -> GetCpuInfo fs = "") /\
  (fs !! _PROC_CPU_INFO = None -> GetCpuInfo fs = "Unknown").
Proof.
  repeat split.
  - intros Hr. unfold GetVersion. rewrite Hr. destruct (IsFileNotExist _ _); reflexivity.
  - intros Hr. unfold GetMemoryCap. rewrite Hr. destruct (IsFileNotExist _ _); reflexivity.
  - intros Hf. unfold GetCpuInfo, IsFileNotExist, ReadFile. rewrite Hf. reflexivity.
  - intros Hf. unfold GetCpuInfo, IsFileNotExist. rewrite Hf. reflexivity.
Qed.

Lemma C9_probe_on_failure_witness :
  GetVersion lockedMachine = "" /\ GetMemoryCap lockedMachine = 0%N /\
  GetCpuInfo lockedMachine = "" /\ GetCpuInfo ∅ = "Unknown".
Proof.
  destruct (C9_probe_on_failure lockedMachine) as (Hv & Hm & Hc & _).
  destruct (C9_probe_on_failure ∅) as (_ & _ & _ & Hu).
  split; [| split; [| split]].
  - apply Hv. vm_compute. reflexivity.
  - apply Hm. vm_compute. reflexivity.
  - apply Hc. vm_compute. reflexivity.
  - apply Hu. vm_compute. reflexivity.
Defined.

(** C9 as it is written fails: with no [/proc/cpuinfo] at all, [GetCpuInfo]
    does not return the empty string. *)
Lemma C9_GetCpuInfo_absent_not_empty :
  IsFileNotExist ∅ _PROC_CPU_INFO = true /\
  GetCpuInfo ∅ = "Unknown" /\ GetCpuInfo ∅ <> "".
Proof. split; [| split]; [reflexivity | reflexivity | discriminate]. Qed.

End SystemInfoFacts.

(** ** The list helpers *)

Module SliceFacts.
Import Dock.

Lemma isStrInSlice_true (str : string) (slice : list string) :
  isStrInSlice str slice = true <-> str ∈ slice.
Proof.
  induction slice as [| e rest IH]; simpl.
  - split; [discriminate | intros Hin; inversion Hin].
  - destruct (String.eqb_spec e str) as [-> | Hne].
    + split; [intros _; left | reflexivity].
    + rewrite IH. split.
      * intros Hin. right. exact Hin.
      * intros Hin. inversion Hin; subst; [congruence | assumption].
Qed.

Lemma isStrInSlice_false (str : string) (slice : list string) :
  isStrInSlice str slice = false <-> str ∉ slice.
Proof.
  rewrite <- isStrInSlice_true. destruct (isStrInSlice str slice); split; congruence.
Qed.

Lemma isStrInSlice_decide (str : string) (slice : list string) :
  isStrInSlice str slice = bool_decide (str ∈ slice).
Proof.
  destruct (isStrInSlice str slice) eqn:E; symmetry.
  - apply bool_decide_eq_true, isStrInSlice_true, E.
  - apply bool_decide_eq_false, isStrInSlice_false, E.
Qed.

Lemma strSliceEqual_true (sa sb : list string) :
  strSliceEqual sa sb = true <-> sa = sb.
Proof.
  revert sb. induction sa as [| a ra IH]; intros [| b rb]; simpl;
    try (split; [discriminate | discriminate]); [tauto |].
  rewrite andb_true_iff, String.eqb_eq, IH. split.
  - intros [-> ->]. reflexivity.
  - intros [= -> ->]. split; reflexivity.
Qed.

Lemma strSliceEqual_false (sa sb : list string) :
  strSliceEqual sa sb = false <-> sa <> sb.
Proof.
  rewrite <- strSliceEqual_true. destruct (strSliceEqual sa sb); split; congruence.
Qed.

Lemma strSliceEqual_refl (sa : list string) : strSliceEqual sa sa = true.
Proof. apply strSliceEqual_true. reflexivity. Qed.

Lemma uniqLoop_freshOf (slice acc : list string) :
  uniqLoop slice acc = acc ++ freshOf acc slice.
Proof.
  revert acc. induction slice as [| e rest IH]; intros acc; simpl.
  - rewrite app_nil_r. reflexivity.
  - rewrite IH. destruct (isStrInSlice e acc); [reflexivity |].
    rewrite <- app_assoc. reflexivity.
Qed.

Lemma uniqStrSlice_freshOf (slice : list string) :
  uniqStrSlice slice = freshOf [] slice.
Proof. unfold uniqStrSlice. rewrite uniqLoop_freshOf. reflexivity. Qed.

Lemma elem_of_freshOf (seen l : list string) (id : string) :
  id ∈ freshOf seen l <-> id ∈ l /\ id ∉ seen.
Proof.
  revert seen. induction l as [| x rest IH]; intros seen; simpl.
  - split; [intros Hin; inversion Hin | intros [Hin _]; inversion Hin].
  - destruct (isStrInSlice x seen) eqn:Ex.
    + apply isStrInSlice_true in Ex. rewrite IH. split.
      * intros [Hin Hns]. split; [right; exact Hin | exact Hns].
      * intros [Hin Hns]. split; [| exact Hns].
        inversion Hin; subst; [contradiction | assumption].
    + apply isStrInSlice_false in Ex. rewrite elem_of_cons, IH, elem_of_cons.
      split.
      * intros [-> | [Hin Hns]]; [split; [left; reflexivity | exact Ex] |].
        split; [right; exact Hin |]. intros Hs. apply Hns.
        apply elem_of_app. left. exact Hs.
      * intros [[-> | Hin] Hns]; [left; reflexivity |].
        destruct (decide (id = x)) as [-> | Hne]; [left; reflexivity |].
        right. split; [exact Hin |]. intros Hs.
        apply elem_of_app in Hs as [Hs | Hs]; [contradiction |].
        apply list_elem_of_singleton in Hs. contradiction.
Qed.

Lemma NoDup_freshOf (seen l : list string) : NoDup (freshOf seen l).
Proof.
  revert seen. induction l as [| x rest IH]; intros seen; simpl.
  - constructor.
  - destruct (isStrInSlice x seen); [apply IH |].
    apply NoDup_cons. split; [| apply IH].
    rewrite elem_of_freshOf. intros [_ Hns]. apply Hns.
    apply elem_of_app. right. left.
Qed.

Lemma freshOf_NoDup_id (seen l : list string) :
  NoDup l -> (forall id, id ∈ l -> id ∉ seen) -> freshOf seen l = l.
Proof.
  revert seen. induction l as [| x rest IH]; intros seen Hnd Hdis; simpl.
  - reflexivity.
  - apply NoDup_cons in Hnd as [Hx Hnd].
    assert (Ex : isStrInSlice x seen = false).
    { apply isStrInSlice_false, Hdis. left. }
    rewrite Ex. f_equal. apply IH; [exact Hnd |].
    intros id Hin Hs. apply elem_of_app in Hs as [Hs | Hs].
    + apply (Hdis id); [right; exact Hin | exact Hs].
    + apply list_elem_of_singleton in Hs. subst. contradiction.
Qed.

Lemma firstIndex_cons_ne (id x : string) (l : list string) :
  x <> id -> firstIndex id (x :: l) = S (firstIndex id l).
Proof. intros Hne. simpl. destruct (decide (x = id)); [contradiction | reflexivity]. Qed.

Lemma freshOf_order (seen l : list string) (i j : nat) (a b : string) :
  freshOf seen l !! i = Some a -> freshOf seen l !! j = Some b -> i < j ->
  firstIndex a l < firstIndex b l.
Proof.
  revert seen i j. induction l as [| x rest IH]; intros seen i j Ha Hb Hij; simpl in Ha, Hb.
  - discriminate.
  - assert (Hin : forall k c, freshOf seen (x :: rest) !! k = Some c -> c ∉ seen).
    { intros k c Hk Hs. apply list_elem_of_lookup_2 in Hk.
      apply elem_of_freshOf in Hk as [_ Hk]. contradiction. }
    destruct (isStrInSlice x seen) eqn:Ex.
    + apply isStrInSlice_true in Ex.
      assert (Hax : x <> a).
      { intros ->. apply (Hin i a); [simpl; rewrite (proj2 (isStrInSlice_true a seen) Ex); exact Ha | exact Ex]. }
      assert (Hbx : x <> b).
      { intros ->. apply (Hin j b); [simpl; rewrite (proj2 (isStrInSlice_true b seen) Ex); exact Hb | exact Ex]. }
      rewrite !firstIndex_cons_ne by assumption.
      apply -> Nat.succ_lt_mono. exact (IH seen i j Ha Hb Hij).
    + destruct j as [| j]; [lia |].
      simpl in Hb.
      assert (Hbx : x <> b).
      { intros ->. apply list_elem_of_lookup_2 in Hb.
        apply elem_of_freshOf in Hb as [_ Hb]. apply Hb.
        apply elem_of_app. right. left. }
      rewrite (firstIndex_cons_ne b x rest Hbx).
      destruct i as [| i]; simpl in Ha.
      * injection Ha as ->. simpl. destruct (decide (a = a)); [lia | contradiction].
      * assert (Hax : x <> a).
        { intros ->. apply list_elem_of_lookup_2 in Ha.
          apply elem_of_freshOf in Ha as [_ Ha]. apply Ha.
          apply elem_of_app. right. left. }
        rewrite (firstIndex_cons_ne a x rest Hax).
        apply -> Nat.succ_lt_mono. apply (IH (seen ++ [x]) i j Ha Hb). lia.
Qed.

(** What [uniqStrSlice] returns: every id of the input, once, in the order
    of the first occurrences. *)
Lemma uniqStrSlice_spec (slice : list string) :
  NoDup (uniqStrSlice slice) /\
  (forall id, id ∈ uniqStrSlice slice <-> id ∈ slice) /\
  (forall i j a b,
      uniqStrSlice slice !! i = Some a -> uniqStrSlice slice !! j = Some b ->
      i < j -> firstIndex a slice < firstIndex b slice).
Proof.
  rewrite uniqStrSlice_freshOf. split; [apply NoDup_freshOf | split].
  - intros id. rewrite elem_of_freshOf. split; [tauto |].
    intros Hin. split; [exact Hin | intros Hs; inversion Hs].
  - intros i j a b. apply freshOf_order.
Qed.

Lemma uniqStrSlice_idem (slice : list string) :
  uniqStrSlice (uniqStrSlice slice) = uniqStrSlice slice.
Proof.
  rewrite (uniqStrSlice_freshOf (uniqStrSlice slice)).
  apply freshOf_NoDup_id; [apply uniqStrSlice_spec |].
  intros id _ Hs. inversion Hs.
Qed.

Example uniqStrSlice_aab : uniqStrSlice ["a"; "a"; "b"] = ["a"; "b"].
Proof. reflexivity. Qed.

Example uniqStrSlice_order : uniqStrSlice ["c"; "a"; "c"; "b"; "a"] = ["c"; "a"; "b"].
Proof. reflexivity. Qed.

End SliceFacts.

(** ** The manager *)

Module ManagerFacts.
Import GoStrings Dock SliceFacts.

(** Unfolds the monad and the primitives of the environment. *)
Ltac run :=
  unfold saveAppList, getManager, setSettings, setDockedAppList, emitSignal,
    SetStrv, GetStrv, SettingsSync, NewSettings, LoadFromFile, GetBoolean,
    GetStringList, GetString, ToData, Lstat, WriteFile, NewAppInfo,
    createScratchDesktopFile, getDockedAppList, panic, emit, modify, bind, get, ret;
  simpl.

Section Facts.
Context {DS : Type} `{!DockState DS}.
Implicit Types (w : World DS) (s id : string) (apps ids : list string).

Lemma extendLog_nil w : extendLog [] w = w.
Proof. destruct w. unfold extendLog. simpl. rewrite app_nil_r. reflexivity. Qed.

Lemma extendLog_app (d1 d2 : list Event) w :
  extendLog d2 (extendLog d1 w) = extendLog (d1 ++ d2) w.
Proof. unfold extendLog. simpl. rewrite app_assoc. reflexivity. Qed.

Lemma putStrv_idem s (key : string) apps (m : gmap string (gmap string (list string))) :
  putStrv s key apps (putStrv s key apps m) = putStrv s key apps m.
Proof.
  unfold putStrv. rewrite lookup_insert_eq. simpl.
  rewrite !insert_insert_eq. reflexivity.
Qed.

Lemma putStrv_lookup s (key : string) apps (m : gmap string (gmap string (list string))) :
  default [] (putStrv s key apps m !! s ≫= (.!! key)) = apps.
Proof.
  unfold putStrv. rewrite lookup_insert_eq. simpl.
  rewrite lookup_insert_eq. reflexivity.
Qed.

Lemma keyFileGetBoolean_set (conf : KeyFile) (group key : string) :
  keyFileGetBoolean (keyFileSetBoolean conf group key true) group key = Ok true.
Proof.
  unfold keyFileGetBoolean, keyFileSetBoolean, rawValue.
  rewrite lookup_insert_eq, lookup_insert_eq. reflexivity.
Qed.

Lemma inited_cases (r : result bool) : r = Ok true \/ r <> Ok true.
Proof. destruct r as [[|] | e]; [left; reflexivity | right | right]; discriminate. Qed.

(** *** Saving *)

Lemma saveAppList_bound w s apps :
  settings (manager w) = Some s ->
  saveAppList apps w =
    (Done tt,
     record BackendSync
       (setSchemas (putStrv s settingKeyDockedApps apps (schemas w))
          (record (BackendSet s settingKeyDockedApps apps) w))).
Proof. intros Hs. run. rewrite Hs. reflexivity. Qed.

Lemma saveAppList_nil w apps :
  settings (manager w) = None -> saveAppList apps w = (Panic, w).
Proof. intros Hs. run. rewrite Hs. reflexivity. Qed.

Lemma saveDockedAppList_same w :
  dockedAppList (manager w) = CurrentDockedIds (dockState w) ->
  saveDockedAppList w = (Done tt, record QueryDockState w).
Proof.
  intros Heq. unfold saveDockedAppList. run.
  rewrite Heq, strSliceEqual_refl. reflexivity.
Qed.

Lemma saveDockedAppList_differ w s :
  settings (manager w) = Some s ->
  dockedAppList (manager w) <> CurrentDockedIds (dockState w) ->
  saveDockedAppList w =
    (Done tt,
     setManager {| settings := Some s; dockedAppList := CurrentDockedIds (dockState w) |}
       (record BackendSync
          (setSchemas (putStrv s settingKeyDockedApps (CurrentDockedIds (dockState w))
                         (schemas w))
             (record (BackendSet s settingKeyDockedApps (CurrentDockedIds (dockState w)))
                (record QueryDockState w))))).
Proof.
  intros Hs Hne. apply strSliceEqual_false in Hne.
  unfold saveDockedAppList. run. rewrite Hne. simpl. rewrite Hs. simpl.
  unfold setManager. simpl. rewrite Hs. reflexivity.
Qed.

Lemma saveDockedAppList_nil w :
  settings (manager w) = None ->
  dockedAppList (manager w) <> CurrentDockedIds (dockState w) ->
  saveDockedAppList w = (Panic, record QueryDockState w).
Proof.
  intros Hs Hne. apply strSliceEqual_false in Hne.
  unfold saveDockedAppList. run. rewrite Hne. simpl. rewrite Hs. reflexivity.
Qed.

(** *** The old configuration file *)

Lemma migrateEntry_log (conf : KeyFile) id w :
  exists delta, migrateEntry conf id w = (Done tt, extendLog delta w) /\
                Forall (fun e => isMigrationStep e = true) delta.
Proof.
  unfold migrateEntry. run. destruct (isStrInSlice id (installed w)).
  - exists []. rewrite extendLog_nil. split; [reflexivity | constructor].
  - eexists. split; [unfold record; rewrite !extendLog_app; reflexivity |].
    repeat constructor.
Qed.

Lemma forEach_migrateEntry_log (conf : KeyFile) ids w :
  exists delta, forEach ids (migrateEntry conf) w = (Done tt, extendLog delta w) /\
                Forall (fun e => isMigrationStep e = true) delta.
Proof.
  revert w. induction ids as [| id rest IH]; intros w; simpl.
  - exists []. rewrite extendLog_nil. split; [reflexivity | constructor].
  - destruct (migrateEntry_log conf id w) as (d1 & E1 & F1).
    destruct (IH (extendLog d1 w)) as (d2 & E2 & F2).
    exists (d1 ++ d2). unfold bind. rewrite E1, E2, extendLog_app.
    split; [reflexivity | apply Forall_app; split; assumption].
Qed.

Lemma handleOld_nofile w :
  confFile w = None -> handleOldConfigFile w = (Done tt, record LegacyLoad w).
Proof. intros Hf. unfold handleOldConfigFile. run. rewrite Hf. reflexivity. Qed.

Lemma handleOld_inited w (conf : KeyFile) :
  confFile w = Some conf ->
  keyFileGetBoolean conf "__Config__" "inited" = Ok true ->
  handleOldConfigFile w = (Done tt, flagChecked w).
Proof.
  intros Hf Hb. unfold handleOldConfigFile. run. rewrite Hf. simpl. rewrite Hb.
  reflexivity.
Qed.

Lemma handleOld_noposition w (conf : KeyFile) (e : KeyFileError) :
  confFile w = Some conf ->
  keyFileGetBoolean conf "__Config__" "inited" <> Ok true ->
  keyFileGetStringList conf "__Config__" "Position" = Err e ->
  handleOldConfigFile w =
    (Done tt, record (LegacyRead "__Config__" "Position") (flagChecked w)).
Proof.
  intros Hf Hb Hp. unfold handleOldConfigFile. run. rewrite Hf. simpl.
  destruct (keyFileGetBoolean conf "__Config__" "inited") as [[|] | e'];
    [contradiction | |]; simpl; rewrite Hp; reflexivity.
Qed.

Lemma bind_done {A B : Type} (c : M DS A) (k : A -> M DS B) w (a : A) w' :
  c w = (Done a, w') -> bind c k w = k a w'.
Proof. intros E. unfold bind. rewrite E. reflexivity. Qed.

Lemma bind_panic {A B : Type} (c : M DS A) (k : A -> M DS B) w w' :
  c w = (Panic, w') -> bind c k w = (Panic, w').
Proof. intros E. unfold bind. rewrite E. reflexivity. Qed.

Lemma LoadFromFile_run w : LoadFromFile w = (Done (confFile w), record LegacyLoad w).
Proof. reflexivity. Qed.

Lemma GetBoolean_run (conf : KeyFile) (group key : string) w :
  GetBoolean conf group key w =
    (Done (keyFileGetBoolean conf group key), record (LegacyRead group key) w).
Proof. reflexivity. Qed.

Lemma GetStringList_run (conf : KeyFile) (group key : string) w :
  GetStringList conf group key w =
    (Done (keyFileGetStringList conf group key), record (LegacyRead group key) w).
Proof. reflexivity. Qed.

Lemma handleOld_migrate w (conf : KeyFile) ids s :
  confFile w = Some conf ->
  keyFileGetBoolean conf "__Config__" "inited" <> Ok true ->
  keyFileGetStringList conf "__Config__" "Position" = Ok ids ->
  settings (manager w) = Some s ->
  exists delta,
    handleOldConfigFile w = (Done tt, migratedWorld s conf (uniqStrSlice ids) delta w) /\
    Forall (fun e => isMigrationStep e = true) delta.
Proof.
  intros Hf Hb Hp Hs.
  destruct (forEach_migrateEntry_log conf (uniqStrSlice ids)
              (record (LegacyRead "__Config__" "Position") (flagChecked w)))
    as (delta & Eloop & Fd).
  exists delta. split; [| exact Fd].
  unfold handleOldConfigFile.
  rewrite (bind_done _ _ _ _ _ (LoadFromFile_run w)), Hf.
  rewrite (bind_done _ _ _ _ _ (GetBoolean_run conf _ _ _)).
  fold (flagChecked w).
  destruct (keyFileGetBoolean conf "__Config__" "inited") as [[|] | e'];
    [contradiction | |].
  all: rewrite (bind_done _ _ _ _ _ (GetStringList_run conf _ _ _)), Hp.
  all: cbv zeta.
  all: rewrite (bind_done _ _ _ _ _ Eloop).
  all: rewrite (bind_done _ _ _ _ _
                 (saveAppList_bound
                    (extendLog delta
                       (record (LegacyRead "__Config__" "Position") (flagChecked w)))
                    s _ Hs)).
  all: unfold migratedWorld; run.
  all: destruct (confSerializable w); simpl; [| reflexivity].
  all: destruct (confWritable w); reflexivity.
Qed.

(** Whatever the old configuration is, a manager with a handle gets through
    [handleOldConfigFile]; the manager and the dock manager are as before,
    and the log has grown by reads of the old file, scratch files and at
    most one write of each store. *)
Lemma handleOld_frame w s :
  settings (manager w) = Some s ->
  exists delta,
    fst (handleOldConfigFile w) = Done tt /\
    log (snd (handleOldConfigFile w)) = (log w ++ delta) /\
    manager (snd (handleOldConfigFile w)) = manager w /\
    dockState (snd (handleOldConfigFile w)) = dockState w /\
    (QueryDockState ∉ delta) /\ signals delta = [].
Proof.
  intros Hs. destruct (confFile w) as [conf |] eqn:Hf.
  2: { rewrite (handleOld_nofile w Hf). exists [LegacyLoad]. simpl.
       repeat split; try reflexivity. intros Hin.
       apply list_elem_of_singleton in Hin. discriminate. }
  destruct (inited_cases (keyFileGetBoolean conf "__Config__" "inited")) as [Hb | Hb].
  { rewrite (handleOld_inited w conf Hf Hb).
    exists [LegacyLoad; LegacyRead "__Config__" "inited"]. simpl.
    rewrite <- app_assoc. repeat split; try reflexivity.
    intros Hin. apply elem_of_cons in Hin as [Hin | Hin]; [discriminate |].
    apply list_elem_of_singleton in Hin. discriminate. }
  destruct (keyFileGetStringList conf "__Config__" "Position") as [ids | e] eqn:Hp.
  2: { rewrite (handleOld_noposition w conf e Hf Hb Hp).
       exists [LegacyLoad; LegacyRead "__Config__" "inited";
               LegacyRead "__Config__" "Position"]. simpl.
       rewrite <- !app_assoc. repeat split; try reflexivity.
       intros Hin. repeat (apply elem_of_cons in Hin as [Hin | Hin]; [discriminate |]).
       inversion Hin. }
  destruct (handleOld_migrate w conf ids s Hf Hb Hp Hs) as (delta & E & Fd).
  rewrite E.
  assert (Hq : QueryDockState ∉ delta).
  { intros Hin. rewrite Forall_forall in Fd. specialize (Fd _ Hin). discriminate. }
  assert (Hsig : signals delta = []).
  { clear -Fd. induction Fd as [| e l He _ IH]; [reflexivity |].
    unfold signals in *. simpl. rewrite IH. destruct e; try discriminate; reflexivity. }
  set (mode := match confMode w with Some m => m | None => 438%N end).
  exists ([LegacyLoad; LegacyRead "__Config__" "inited";
           LegacyRead "__Config__" "Position"] ++ delta ++
          [BackendSet s settingKeyDockedApps (uniqStrSlice ids); BackendSync] ++
          (if confSerializable w then [LegacyWrite mode] else [])).
  unfold migratedWorld. simpl fst. simpl snd.
  split; [reflexivity |].
  split.
  { destruct (confSerializable w); [destruct (confWritable w) |]; simpl;
      rewrite <- ?app_assoc; simpl; rewrite ?app_nil_r; reflexivity. }
  split; [destruct (confSerializable w); [destruct (confWritable w) |]; reflexivity |].
  split; [destruct (confSerializable w); [destruct (confWritable w) |]; reflexivity |].
  split.
  - intros Hin. repeat (apply elem_of_cons in Hin as [Hin | Hin]; [discriminate |]).
    apply elem_of_app in Hin as [Hin | Hin]; [contradiction |].
    repeat (apply elem_of_cons in Hin as [Hin | Hin]; [discriminate |]).
    destruct (confSerializable w); [| inversion Hin].
    apply list_elem_of_singleton in Hin. discriminate.
  - unfold signals in *. simpl. rewrite List.filter_app, Hsig. simpl.
    destruct (confSerializable w); reflexivity.
Qed.

(** The ids that [init] finds in the backend after [handleOldConfigFile]
    deduplicate to the same list as the ids the start-up works from. *)
Lemma handleOld_stored w :
  settings (manager w) = Some dockSchema ->
  uniqStrSlice (persisted (snd (handleOldConfigFile w))) = uniqStrSlice (startupInput w).
Proof.
  intros Hs. unfold startupInput. destruct (confFile w) as [conf |] eqn:Hf.
  2: { rewrite (handleOld_nofile w Hf). reflexivity. }
  destruct (inited_cases (keyFileGetBoolean conf "__Config__" "inited")) as [Hb | Hb].
  { rewrite (handleOld_inited w conf Hf Hb), Hb. reflexivity. }
  destruct (keyFileGetStringList conf "__Config__" "Position") as [ids | e] eqn:Hp.
  2: { rewrite (handleOld_noposition w conf e Hf Hb Hp).
       destruct (keyFileGetBoolean conf "__Config__" "inited") as [[|] | e'];
         [contradiction | reflexivity | reflexivity]. }
  destruct (handleOld_migrate w conf ids dockSchema Hf Hb Hp Hs) as (delta & E & _).
  rewrite E. simpl snd.
  assert (Hst : persisted (migratedWorld dockSchema conf (uniqStrSlice ids) delta w)
                = uniqStrSlice ids).
  { unfold persisted, storedStrv, migratedWorld.
    destruct (confSerializable w); [destruct (confWritable w) |]; simpl;
      apply putStrv_lookup. }
  rewrite Hst, uniqStrSlice_idem.
  destruct (keyFileGetBoolean conf "__Config__" "inited") as [[|] | e'];
    [contradiction | reflexivity | reflexivity].
Qed.

(** *** Start-up *)

Lemma NewDockedAppManager_no_backend w :
  schemas w !! dockSchema = None ->
  NewDockedAppManager w =
    (Done tt, setManager {| settings := None; dockedAppList := [] |} w).
Proof.
  intros Hg. unfold NewDockedAppManager, init. run. rewrite Hg. reflexivity.
Qed.

Lemma NewDockedAppManager_run w (g : gmap string (list string)) :
  schemas w !! dockSchema = Some g ->
  NewDockedAppManager w =
    (Done tt, loadedAndSaved (snd (handleOldConfigFile (handleAcquired w)))).
Proof.
  intros Hg.
  destruct (handleOld_frame (handleAcquired w) dockSchema eq_refl)
    as (delta & Hdone & _ & Hm & _).
  destruct (handleOldConfigFile (handleAcquired w)) as [r w1] eqn:E.
  simpl in Hdone, Hm. subst r. simpl snd.
  unfold NewDockedAppManager, init.
  rewrite (bind_done _ _ w tt (setManager {| settings := None; dockedAppList := [] |} w))
    by reflexivity.
  rewrite (bind_done (NewSettings dockSchema) _ _ (Some dockSchema)
             (setManager {| settings := None; dockedAppList := [] |} w))
    by (run; rewrite Hg; reflexivity).
  rewrite (bind_done (setSettings (Some dockSchema)) _ _ tt (handleAcquired w))
    by reflexivity.
  rewrite (bind_done _ _ _ _ _ E).
  unfold loadedAndSaved. run. rewrite Hm. simpl. rewrite ?Hm. reflexivity.
Qed.

(** *** Requests *)

Lemma signals_app (l d : list Event) : signals (l ++ d) = signals l ++ signals d.
Proof. apply List.filter_app. Qed.

Lemma backendWrites_app (l d : list Event) :
  backendWrites (l ++ d) = backendWrites l ++ backendWrites d.
Proof. apply List.filter_app. Qed.

(** A sync leaves the dock manager alone and raises no signal; it either
    returns or panics before any write. *)
Lemma saveDockedAppList_frame w :
  exists delta,
    log (snd (saveDockedAppList w)) = (log w ++ delta) /\
    signals delta = [] /\
    dockState (snd (saveDockedAppList w)) = dockState w /\
    (fst (saveDockedAppList w) = Panic ->
     manager (snd (saveDockedAppList w)) = manager w /\
     schemas (snd (saveDockedAppList w)) = schemas w).
Proof.
  destruct (decide (dockedAppList (manager w) = CurrentDockedIds (dockState w)))
    as [Heq | Hne].
  - rewrite (saveDockedAppList_same w Heq). exists [QueryDockState].
    repeat split; reflexivity.
  - destruct (settings (manager w)) as [s |] eqn:Hs.
    + rewrite (saveDockedAppList_differ w s Hs Hne).
      exists [QueryDockState;
              BackendSet s settingKeyDockedApps (CurrentDockedIds (dockState w));
              BackendSync].
      simpl. rewrite <- !app_assoc.
      split; [reflexivity | split; [reflexivity | split; [reflexivity | discriminate]]].
    + rewrite (saveDockedAppList_nil w Hs Hne). exists [QueryDockState].
      repeat split; reflexivity.
Qed.

(** The two ways a request goes: it is answered [false] on the spot, the
    manager untouched; or it reaches the sync, in a world where only the dock
    manager and the log have moved, and then raises its signal. *)
Lemma serve_cases (r : Request) w :
  (exists ds,
     serve r w = (Done false, setDockState ds (record (delegation r) w))) \/
  (exists ds id,
     (forall id', r = UndockRequest id' -> id = id') /\
     serve r w =
       bind saveDockedAppList
         (fun _ => bind (emitSignal (signalName r) id) (fun _ => ret true))
         (setDockState ds (record (delegation r) w))).
Proof.
  destruct r as [id title icon cmd | id]; simpl;
    unfold RequestDock, requestDock, RequestUndock, undockEntryByAppId,
      dockAppEntry, undockAppEntry; run.
  - destruct (DockStateDock (dockState w) id title icon cmd) as [[ds entry] |].
    + destruct (appInfo entry) as [info |].
      * right. exists ds, (GetId info). split; [discriminate | reflexivity].
      * left. exists ds. reflexivity.
    + left. exists (dockState w). destruct w; reflexivity.
  - destruct (DockStateUndock (dockState w) id) as [ds |].
    + right. exists ds, id. split; [intros id' [= ->]; reflexivity | reflexivity].
    + left. exists (dockState w). destruct w; reflexivity.
Qed.

Lemma delegation_quiet (r : Request) :
  isSignal (delegation r) = false /\ isBackendWrite (delegation r) = false.
Proof. destruct r; split; reflexivity. Qed.

(** After the sync a request raises its one signal and answers [true]. *)
Lemma sync_then_signal (name id : string) w :
  (fst (saveDockedAppList w) = Done tt /\
   bind saveDockedAppList (fun _ => bind (emitSignal name id) (fun _ => ret true)) w
     = (Done true, record (Signal name id) (snd (saveDockedAppList w)))) \/
  (fst (saveDockedAppList w) = Panic /\
   bind saveDockedAppList (fun _ => bind (emitSignal name id) (fun _ => ret true)) w
     = (Panic, snd (saveDockedAppList w))).
Proof.
  destruct (saveDockedAppList w) as [[[] |] w'] eqn:E.
  - left. split; [reflexivity |]. rewrite (bind_done _ _ _ _ _ E). reflexivity.
  - right. split; [reflexivity |]. rewrite (bind_panic _ _ _ _ E). reflexivity.
Qed.

(** After a sync the cached list is the one it was or the one of the dock
    manager. *)
Lemma saveDockedAppList_cached w :
  dockedAppList (manager (snd (saveDockedAppList w))) = dockedAppList (manager w) \/
  dockedAppList (manager (snd (saveDockedAppList w))) = CurrentDockedIds (dockState w).
Proof.
  destruct (decide (dockedAppList (manager w) = CurrentDockedIds (dockState w)))
    as [Heq | Hne].
  - rewrite (saveDockedAppList_same w Heq). left. reflexivity.
  - destruct (settings (manager w)) as [s |] eqn:Hs.
    + rewrite (saveDockedAppList_differ w s Hs Hne). right. reflexivity.
    + rewrite (saveDockedAppList_nil w Hs Hne). left. reflexivity.
Qed.

(** The requests keep the cached list free of duplicates as long as the dock
    manager answers with a list free of duplicates. *)
Lemma serve_keeps_NoDup (r : Request) w (res : Res bool) w' :
  serve r w = (res, w') ->
  NoDup (dockedAppList (manager w)) ->
  NoDup (CurrentDockedIds (dockState w')) ->
  NoDup (dockedAppList (manager w')).
Proof.
  intros E Hnd Hds.
  destruct (serve_cases r w) as [(ds & E1) | (ds & id & _ & E1)]; rewrite E1 in E.
  - injection E as <- <-. exact Hnd.
  - set (W := setDockState ds (record (delegation r) w)) in *.
    destruct (saveDockedAppList_frame W) as (delta & _ & _ & Hst & _).
    assert (Hw' : manager w' = manager (snd (saveDockedAppList W)) /\
                  dockState w' = dockState (snd (saveDockedAppList W))).
    { destruct (sync_then_signal (signalName r) id W) as [[_ E2] | [_ E2]];
        rewrite E2 in E; injection E as <- <-; split; reflexivity. }
    destruct Hw' as [Hm Hd]. rewrite Hm. rewrite Hd, Hst in Hds.
    destruct (saveDockedAppList_cached W) as [Hc | Hc]; rewrite Hc; assumption.
Qed.

(** *** The claims on the manager *)

(** C10: the deprecated [Dock] and the misspelled [ReqeustDock] are
    [RequestDock], and the deprecated [Undock] is [RequestUndock]: on every
    input and in every world they return the same result and leave the same
    world, log of signals and writes included. *)
Theorem C10_deprecated_aliases (id title icon cmd : string) w :
  Dock id title icon cmd w = RequestDock id title icon cmd w /\
  ReqeustDock id title icon cmd w = RequestDock id title icon cmd w /\
  Undock id w = RequestUndock id w.
Proof. unfold Dock, ReqeustDock, Undock. repeat split. Qed.

(** C7: [IsDocked id] answers [true] exactly when [id] occurs in the cached
    list, and leaves the world as it found it: no field changes and the log,
    which records every call to the dock manager and to the backend, does not
    grow. *)
Theorem C7_IsDocked_pure_membership (id : string) w :
  IsDocked id w = (Done (bool_decide (id ∈ dockedAppList (manager w))), w).
Proof. unfold IsDocked. run. rewrite isStrInSlice_decide. reflexivity. Qed.

(** C5: a request that is answered [false] leaves the cached list (the whole
    manager), the stored values of the backend and the old file as they
    were, writes nothing to the backend and raises no signal. *)
Theorem C5_failed_request_changes_nothing (r : Request) w w' :
  serve r w = (Done false, w') ->
  manager w' = manager w /\ schemas w' = schemas w /\ confFile w' = confFile w /\
  backendWrites (log w') = backendWrites (log w) /\
  signals (log w') = signals (log w).
Proof.
  intros E. destruct (serve_cases r w) as [(ds & E1) | (ds & id & _ & E1)].
  - rewrite E1 in E. injection E as <-.
    destruct (delegation_quiet r) as [Hsig Hwr].
    simpl. rewrite backendWrites_app, signals_app. unfold backendWrites, signals.
    simpl. rewrite Hsig, Hwr, !app_nil_r. repeat split.
  - rewrite E1 in E.
    destruct (sync_then_signal (signalName r) id
                (setDockState ds (record (delegation r) w))) as [[_ E2] | [_ E2]];
      rewrite E2 in E; discriminate.
Qed.

(** C6: the undock of an id the dock manager does not hold is answered
    [false] and only the delegation is recorded; and whatever the id, a
    request to undock raises [Undocked] once when it is answered [true] and
    never otherwise. *)
Theorem C6_undock_signal (id : string) w :
  (id ∉ CurrentDockedIds (dockState w) ->
   RequestUndock id w = (Done false, record (DelegateUndock id) w)) /\
  (forall res w', RequestUndock id w = (res, w') ->
     signals (log w') = signals (log w) ++
       match res with
       | Done true => [Signal "Undocked" id]
       | _ => []
       end).
Proof.
  split.
  - intros Hid. apply isStrInSlice_false in Hid.
    unfold RequestUndock, undockEntryByAppId. run.
    rewrite (undock_not_docked _ _ Hid). reflexivity.
  - intros res w' E. change (RequestUndock id w) with (serve (UndockRequest id) w) in E.
    destruct (serve_cases (UndockRequest id) w) as [(ds & E1) | (ds & id0 & Hid & E1)];
      rewrite E1 in E.
    + injection E as <- <-. simpl. rewrite signals_app. reflexivity.
    + pose proof (Hid id eq_refl) as ->.
      set (W := setDockState ds (record (delegation (UndockRequest id)) w)) in *.
      destruct (saveDockedAppList_frame W) as (delta & Hlog & Hsig & _).
      destruct (sync_then_signal (signalName (UndockRequest id)) id W)
        as [[_ E2] | [_ E2]]; rewrite E2 in E; injection E as <- <-; simpl;
        rewrite Hlog; subst W; simpl; rewrite !signals_app, Hsig; simpl;
        rewrite ?app_nil_r; reflexivity.
Qed.

(** C1, as the code has it.  The sync after a request, [saveDockedAppList],
    writes if and only if the list of the dock manager differs from the
    cached list: when they are equal it only asks the dock manager; when they
    differ it writes the new list once, flushes, and caches it.  So a
    request that is answered [true] writes the backend once when the lists
    differ after it and not at all when they are equal.  The start-up does
    not go through this comparison: it never asks the dock manager, and ends
    with one write of the deduplicated list it has loaded. *)
Theorem C1_sync_writes_iff_differs w :
  (forall s, settings (manager w) = Some s ->
     let apps := CurrentDockedIds (dockState w) in
     let w' := snd (saveDockedAppList w) in
     fst (saveDockedAppList w) = Done tt /\
     (dockedAppList (manager w) = apps -> w' = record QueryDockState w) /\
     (dockedAppList (manager w) <> apps ->
        log w' = log w ++ [QueryDockState; BackendSet s settingKeyDockedApps apps;
                           BackendSync] /\
        storedStrv w' s settingKeyDockedApps = apps /\
        dockedAppList (manager w') = apps)) /\
  (forall s r w', settings (manager w) = Some s -> serve r w = (Done true, w') ->
     let apps := CurrentDockedIds (dockState w') in
     (dockedAppList (manager w) = apps ->
        backendWrites (log w') = backendWrites (log w)) /\
     (dockedAppList (manager w) <> apps ->
        backendWrites (log w') =
          backendWrites (log w) ++ [BackendSet s settingKeyDockedApps apps] /\
        storedStrv w' s settingKeyDockedApps = apps /\
        dockedAppList (manager w') = apps)) /\
  (forall g, schemas w !! dockSchema = Some g ->
     let w' := snd (NewDockedAppManager w) in
     fst (NewDockedAppManager w) = Done tt /\
     persisted w' = dockedAppList (manager w') /\
     exists pre,
       log w' = log w ++ pre ++
                [BackendGet dockSchema settingKeyDockedApps;
                 BackendSet dockSchema settingKeyDockedApps (dockedAppList (manager w'));
                 BackendSync] /\
       QueryDockState ∉ pre).
Proof.
  split; [| split].
  - intros s Hs apps w'. subst apps w'.
    destruct (decide (dockedAppList (manager w) = CurrentDockedIds (dockState w)))
      as [Heq | Hne].
    + rewrite (saveDockedAppList_same w Heq).
      split; [reflexivity | split; [reflexivity | contradiction]].
    + rewrite (saveDockedAppList_differ w s Hs Hne).
      split; [reflexivity | split; [contradiction |]]. intros _. simpl.
      split; [rewrite <- !app_assoc; reflexivity |].
      split; [apply putStrv_lookup | reflexivity].
  - intros s r w' Hs E.
    destruct (serve_cases r w) as [(ds & E1) | (ds & id & _ & E1)];
      rewrite E1 in E; [discriminate |].
    set (W := setDockState ds (record (delegation r) w)) in *.
    destruct (delegation_quiet r) as [_ Hwr].
    destruct (sync_then_signal (signalName r) id W) as [[_ E2] | [_ E2]];
      rewrite E2 in E; [| discriminate].
    injection E as <-. simpl.
    destruct (decide (dockedAppList (manager W) = CurrentDockedIds (dockState W)))
      as [Heq | Hne].
    + rewrite (saveDockedAppList_same W Heq). simpl.
      split; [| intros Hne; contradiction]. intros _.
      rewrite <- !app_assoc, backendWrites_app. unfold backendWrites at 2. simpl.
      rewrite Hwr. simpl. rewrite app_nil_r. reflexivity.
    + rewrite (saveDockedAppList_differ W s Hs Hne). simpl.
      split; [intros Heq; contradiction |]. intros _.
      split; [| split; [apply putStrv_lookup | reflexivity]].
      rewrite <- !app_assoc, backendWrites_app. unfold backendWrites at 2. simpl.
      rewrite Hwr. reflexivity.
  - intros g Hg. rewrite (NewDockedAppManager_run w g Hg). simpl fst. simpl snd.
    destruct (handleOld_frame (handleAcquired w) dockSchema eq_refl)
      as (delta & _ & Hlog & _ & _ & Hq & _).
    split; [reflexivity |].
    split; [unfold persisted, storedStrv, loadedAndSaved; simpl; apply putStrv_lookup |].
    exists delta. split; [| exact Hq].
    unfold loadedAndSaved. simpl. rewrite Hlog. simpl.
    rewrite <- !app_assoc. reflexivity.
Qed.

(** C2, as the code has it: when the old configuration file is absent or
    cannot be loaded, [handleOldConfigFile] returns after the failed load;
    nothing is written, to the backend or to the file, and the migration flag
    is not set. *)
Theorem C2_missing_file_nothing_done w :
  confFile w = None ->
  handleOldConfigFile w = (Done tt, record LegacyLoad w) /\
  migrationFlag (snd (handleOldConfigFile w)) = false.
Proof.
  intros Hf. rewrite (handleOld_nofile w Hf). split; [reflexivity |].
  unfold migrationFlag. simpl. rewrite Hf. reflexivity.
Qed.

(** C3, as the code has it.  With the flag set in the old file, the
    migration returns after checking it: nothing is written and nothing else
    is read.  A second run always leaves the backend as the first run left
    it.  The second run stops at the flag when the first run left the flag
    set, which a first run that migrates and gets to write the file back
    does. *)
Theorem C3_migration_idempotent w s :
  settings (manager w) = Some s ->
  let w1 := snd (handleOldConfigFile w) in
  let w2 := snd (handleOldConfigFile w1) in
  (migrationFlag w = true -> handleOldConfigFile w = (Done tt, flagChecked w)) /\
  schemas w2 = schemas w1 /\
  (migrationFlag w1 = true -> handleOldConfigFile w1 = (Done tt, flagChecked w1)) /\
  (forall (conf : KeyFile) ids,
     confFile w = Some conf ->
     keyFileGetStringList conf "__Config__" "Position" = Ok ids ->
     confSerializable w = true -> confWritable w = true ->
     migrationFlag w1 = true).
Proof.
  intros Hs w1 w2.
  assert (Hflag : forall w0 : World DS,
             migrationFlag w0 = true -> handleOldConfigFile w0 = (Done tt, flagChecked w0)).
  { intros w0 Hfl. unfold migrationFlag in Hfl.
    destruct (confFile w0) as [conf |] eqn:Hf; [| discriminate].
    apply (handleOld_inited w0 conf Hf).
    destruct (keyFileGetBoolean conf "__Config__" "inited") as [[|] | e];
      [reflexivity | discriminate | discriminate]. }
  split; [apply Hflag |]. split; [| split; [apply Hflag |]].
  - subst w1 w2. destruct (confFile w) as [conf |] eqn:Hf.
    2: { rewrite (handleOld_nofile w Hf). simpl snd.
         rewrite (handleOld_nofile (record LegacyLoad w) Hf). reflexivity. }
    destruct (inited_cases (keyFileGetBoolean conf "__Config__" "inited")) as [Hb | Hb].
    { rewrite (handleOld_inited w conf Hf Hb). simpl snd.
      rewrite (handleOld_inited (flagChecked w) conf Hf Hb). reflexivity. }
    destruct (keyFileGetStringList conf "__Config__" "Position") as [ids | e] eqn:Hp.
    2: { rewrite (handleOld_noposition w conf e Hf Hb Hp). simpl snd.
         rewrite (handleOld_noposition
                    (record (LegacyRead "__Config__" "Position") (flagChecked w))
                    conf e Hf Hb Hp).
         reflexivity. }
    destruct (handleOld_migrate w conf ids s Hf Hb Hp Hs) as (delta & E & _).
    rewrite E. simpl snd.
    set (w1 := migratedWorld s conf (uniqStrSlice ids) delta w).
    assert (Hs1 : settings (manager w1) = Some s).
    { subst w1. unfold migratedWorld.
      destruct (confSerializable w); [destruct (confWritable w) |]; exact Hs. }
    assert (Hsch : schemas w1 = putStrv s settingKeyDockedApps (uniqStrSlice ids) (schemas w)).
    { subst w1. unfold migratedWorld.
      destruct (confSerializable w); [destruct (confWritable w) |]; reflexivity. }
    destruct (confSerializable w && confWritable w) eqn:Hwr.
    + apply andb_true_iff in Hwr as [Hser Hwri].
      assert (Hf1 : confFile w1 = Some (keyFileSetBoolean conf "__Config__" "inited" true)).
      { subst w1. unfold migratedWorld. rewrite Hser, Hwri. reflexivity. }
      rewrite (handleOld_inited w1 _ Hf1 (keyFileGetBoolean_set conf _ _)). reflexivity.
    + assert (Hf1 : confFile w1 = Some conf).
      { subst w1. unfold migratedWorld.
        destruct (confSerializable w); [destruct (confWritable w) |];
          [discriminate | exact Hf | exact Hf]. }
      destruct (handleOld_migrate w1 conf ids s Hf1 Hb Hp Hs1) as (delta1 & E1 & _).
      rewrite E1. simpl snd.
      transitivity (putStrv s settingKeyDockedApps (uniqStrSlice ids) (schemas w1)).
      { unfold migratedWorld.
        destruct (confSerializable w1); [destruct (confWritable w1) |]; reflexivity. }
      rewrite Hsch. apply putStrv_idem.
  - intros conf ids Hf Hp Hser Hwri. subst w1 w2.
    destruct (inited_cases (keyFileGetBoolean conf "__Config__" "inited")) as [Hb | Hb].
    { rewrite (handleOld_inited w conf Hf Hb). unfold migrationFlag. simpl.
      rewrite Hf, Hb. reflexivity. }
    destruct (handleOld_migrate w conf ids s Hf Hb Hp Hs) as (delta & E & _).
    rewrite E. unfold migrationFlag, migratedWorld. rewrite Hser, Hwri. simpl.
    rewrite keyFileGetBoolean_set. reflexivity.
Qed.


End Facts.

(** *** Runs on the sample worlds *)

Lemma C1_sync_writes_iff_differs_witness :
  log (snd (saveDockedAppList worldDrift)) =
    log worldDrift ++ [QueryDockState;
                       BackendSet dockSchema settingKeyDockedApps ["x"; "y"; "z"];
                       BackendSync] /\
  snd (saveDockedAppList worldReady) = record QueryDockState worldReady /\
  fst (NewDockedAppManager worldOld) = Done tt.
Proof.
  destruct (C1_sync_writes_iff_differs worldDrift) as (Hsync & _ & _).
  destruct (Hsync dockSchema eq_refl) as (_ & _ & Hd).
  destruct (C1_sync_writes_iff_differs worldReady) as (Hsync' & _ & _).
  destruct (Hsync' dockSchema eq_refl) as (_ & He & _).
  destruct (C1_sync_writes_iff_differs worldOld) as (_ & _ & Hstart).
  destruct (Hstart {[ settingKeyDockedApps := ["b"; "b"; "c"] ]} eq_refl) as (Hdone & _).
  split; [| split].
  - apply Hd. vm_compute. discriminate.
  - apply He. vm_compute. reflexivity.
  - exact Hdone.
Defined.

(** C1 as it is written fails at start-up.  On [worldXY] the stored list, the
    list of the dock manager and the list cached after the load are the same,
    and the start-up writes the backend all the same, without asking the dock
    manager.  On [worldApart] the dock manager holds another list than the
    backend, and the start-up writes the loaded list back and caches it, not
    the list of the dock manager. *)
Lemma C1_startup_writes_without_comparing :
  (persisted worldXY = CurrentDockedIds (dockState worldXY) /\
   dockedAppList (manager (snd (NewDockedAppManager worldXY)))
     = CurrentDockedIds (dockState (snd (NewDockedAppManager worldXY))) /\
   log (snd (NewDockedAppManager worldXY))
     = [LegacyLoad; BackendGet dockSchema settingKeyDockedApps;
        BackendSet dockSchema settingKeyDockedApps ["x"; "y"]; BackendSync]) /\
  (CurrentDockedIds (dockState (snd (NewDockedAppManager worldApart))) = ["z"] /\
   dockedAppList (manager (snd (NewDockedAppManager worldApart))) = ["x"; "y"] /\
   backendWrites (log (snd (NewDockedAppManager worldApart)))
     = [BackendSet dockSchema settingKeyDockedApps ["x"; "y"]]).
Proof. vm_compute. repeat split. Qed.

Lemma C2_missing_file_nothing_done_witness :
  handleOldConfigFile (handleAcquired worldNoFile)
    = (Done tt, record LegacyLoad (handleAcquired worldNoFile)) /\
  migrationFlag (snd (handleOldConfigFile (handleAcquired worldNoFile))) = false.
Proof. apply (C2_missing_file_nothing_done (handleAcquired worldNoFile)). reflexivity. Defined.

(** C2 as it is written fails: with no old configuration file, the flag is
    not set by the migration, nor by the whole start-up, and no file is
    written. *)
Lemma C2_flag_not_set_without_file :
  confFile worldNoFile = None /\
  migrationFlag (snd (handleOldConfigFile (handleAcquired worldNoFile))) <> true /\
  migrationFlag (snd (NewDockedAppManager worldNoFile)) <> true /\
  confFile (snd (NewDockedAppManager worldNoFile)) = None /\
  log (snd (handleOldConfigFile (handleAcquired worldNoFile))) = [LegacyLoad].
Proof. vm_compute. repeat split; discriminate. Qed.

Lemma C3_migration_idempotent_witness :
  let w1 := snd (handleOldConfigFile (handleAcquired worldOld)) in
  let w2 := snd (handleOldConfigFile w1) in
  schemas w2 = schemas w1 /\
  migrationFlag w1 = true /\
  handleOldConfigFile w1 = (Done tt, flagChecked w1).
Proof.
  intros w1 w2.
  destruct (C3_migration_idempotent (handleAcquired worldOld) dockSchema eq_refl)
    as (_ & Hsame & Hstop & Hset).
  assert (Hfl : migrationFlag w1 = true).
  { apply (Hset oldConf ["a"; "a"; "b"]); reflexivity. }
  split; [exact Hsame | split; [exact Hfl | exact (Hstop Hfl)]].
Defined.

(** C3 as it is written fails in its last part.  On [worldOldReadOnly] the
    first run migrates but cannot write the old file back, so the flag stays
    unset and the second run reads the list of ids and the entries again.  On
    [worldBare] the old file has no list of ids, the first run returns
    without setting the flag, and the second run asks for the list again. *)
Lemma C3_second_run_reads_again :
  (let w1 := snd (handleOldConfigFile (handleAcquired worldOldReadOnly)) in
   let w2 := snd (handleOldConfigFile w1) in
   migrationFlag w1 = false /\
   readsBeyondFlag (drop (List.length (log w1)) (log w2))
     = [LegacyRead "__Config__" "Position"; LegacyRead "a" "CmdLine";
        LegacyRead "a" "Icon"; LegacyRead "a" "Name"]) /\
  (let w1 := snd (handleOldConfigFile (handleAcquired worldBare)) in
   let w2 := snd (handleOldConfigFile w1) in
   migrationFlag w1 = false /\
   readsBeyondFlag (drop (List.length (log w1)) (log w2))
     = [LegacyRead "__Config__" "Position"]).
Proof. vm_compute. repeat split. Qed.


Lemma C5_failed_request_changes_nothing_witness :
  let r := DockRequest "q" "" "" "" in
  manager (snd (serve r worldReady)) = manager worldReady /\
  schemas (snd (serve r worldReady)) = schemas worldReady /\
  confFile (snd (serve r worldReady)) = confFile worldReady /\
  backendWrites (log (snd (serve r worldReady))) = backendWrites (log worldReady) /\
  signals (log (snd (serve r worldReady))) = signals (log worldReady).
Proof.
  intros r.
  apply (C5_failed_request_changes_nothing r worldReady (snd (serve r worldReady))).
  vm_compute. reflexivity.
Defined.

Lemma C6_undock_signal_witness :
  RequestUndock "q" worldReady = (Done false, record (DelegateUndock "q") worldReady) /\
  signals (log (snd (RequestUndock "x" worldReady)))
    = signals (log worldReady) ++ [Signal "Undocked" "x"].
Proof.
  split.
  - apply (proj1 (C6_undock_signal "q" worldReady)).
    apply isStrInSlice_false. reflexivity.
  - apply (proj2 (C6_undock_signal "x" worldReady) (Done true)
             (snd (RequestUndock "x" worldReady))).
    vm_compute. reflexivity.
Defined.


(** *** The scenarios of the specification *)

(** The old file lists [a; a; b] and has no flag: the migration persists
    [a; b] and sets the flag. *)
Example scenario_A :
  let w1 := snd (handleOldConfigFile (handleAcquired worldOld)) in
  persisted w1 = ["a"; "b"] /\ migrationFlag w1 = true.
Proof. vm_compute. split; reflexivity. Qed.

(** A request to dock [z] that the dock manager accepts: the list grows by
    [z], one signal, one write. *)
Example scenario_C :
  let r := RequestDock "z" "Z App" "icon.png" "/usr/bin/z" worldReady in
  fst r = Done true /\
  dockedAppList (manager (snd r)) = ["x"; "y"; "z"] /\
  drop (List.length (log worldReady)) (log (snd r))
    = [DelegateDock "z" "Z App" "icon.png" "/usr/bin/z"; QueryDockState;
       BackendSet dockSchema settingKeyDockedApps ["x"; "y"; "z"]; BackendSync;
       Signal "Docked" "z"].
Proof. vm_compute. repeat split. Qed.

(** A request to undock an id that is not docked: [false], no signal, no
    write. *)
Example scenario_D :
  let r := RequestUndock "nonexistent" worldReady in
  fst r = Done false /\
  drop (List.length (log worldReady)) (log (snd r)) = [DelegateUndock "nonexistent"].
Proof. vm_compute. split; reflexivity. Qed.

End ManagerFacts.
(** ** More on the probe *)

Module ProbeFacts.
Import GoStrings SystemInfo.

Lemma second_of_pieces (l : list string) :
  match l with _ :: v :: _ => v | _ => "" end = nth 1 l "".
Proof. destruct l as [| a [| b r]]; reflexivity. Qed.

Lemma versionLoop_skip (pre rest : list string) :
  Forall (fun l => Contains l _VERSION_KEY = false) pre ->
  versionLoop (pre ++ rest) = versionLoop rest.
Proof.
  induction 1 as [| l pre Hl _ IH]; [reflexivity |].
  simpl. rewrite Hl. exact IH.
Qed.

Lemma memLoop_skip (pre rest : list string) :
  Forall (fun l => Contains l _PROC_MEM_KEY = false) pre ->
  memLoop (pre ++ rest) = memLoop rest.
Proof.
  induction 1 as [| l pre Hl _ IH]; [reflexivity |].
  simpl. rewrite Hl. exact IH.
Qed.

Lemma GetVersion_readable (fs : FileSystem) (contents : string) :
  fs !! _VERSION_ETC = Some (Contents contents) ->
  GetVersion fs = versionLoop (Split contents newline).
Proof. intros Hf. unfold GetVersion, IsFileNotExist, ReadFile. rewrite Hf. reflexivity. Qed.

Lemma GetMemoryCap_readable (fs : FileSystem) (contents : string) :
  fs !! _PROC_MEM_INFO = Some (Contents contents) ->
  GetMemoryCap fs = ((memLoop (Split contents newline) * 1024) mod 2 ^ 64)%N.
Proof. intros Hf. unfold GetMemoryCap, IsFileNotExist, ReadFile. rewrite Hf. reflexivity. Qed.

Lemma GetCpuInfo_readable (fs : FileSystem) (contents : string) :
  fs !! _PROC_CPU_INFO = Some (Contents contents) ->
  GetCpuInfo fs =
    let '(info, cnt) := cpuLoop (Split contents newline) "" 0 in
    TrimSpace ((info +:+ " x ") +:+ FormatInt cnt).
Proof. intros Hf. unfold GetCpuInfo, IsFileNotExist, ReadFile. rewrite Hf. reflexivity. Qed.

(** Only the first line that contains [DISTRIB_RELEASE] counts for
    [GetVersion]: the version is what stands between its first and its
    second [=], empty when the line has no [=]; the lines after it are not
    looked at. *)
Theorem GetVersion_first_match (fs : FileSystem) (contents line : string)
    (pre post : list string) :
  fs !! _VERSION_ETC = Some (Contents contents) ->
  Split contents newline = pre ++ line :: post ->
  Forall (fun l => Contains l _VERSION_KEY = false) pre ->
  Contains line _VERSION_KEY = true ->
  GetVersion fs = secondPiece line "=".
Proof.
  intros Hf Hs Hpre Hline.
  rewrite (GetVersion_readable fs contents Hf), Hs, (versionLoop_skip pre _ Hpre).
  simpl. rewrite Hline. apply second_of_pieces.
Qed.

Lemma GetVersion_first_match_witness :
  GetVersion machine = secondPiece "DISTRIB_RELEASE=15.4" "=" /\
  secondPiece "DISTRIB_RELEASE=15.4" "=" = "15.4".
Proof.
  split; [| reflexivity].
  apply (GetVersion_first_match machine lsbRelease "DISTRIB_RELEASE=15.4"
           ["DISTRIB_ID=Deepin"] [""]).
  - vm_compute. reflexivity.
  - vm_compute. reflexivity.
  - repeat constructor.
  - reflexivity.
Defined.

Lemma cpuLoop_no_key (lines : list string) (info : string) (cnt : nat) :
  Forall (fun l => Contains l _PROC_CPU_KEY = false) lines ->
  cpuLoop lines info cnt = (info, cnt).
Proof.
  intros H. revert info cnt. induction H as [| l lines Hl _ IH]; intros info cnt;
    [reflexivity |].
  simpl. rewrite Hl. apply IH.
Qed.

(** A readable file in which no line contains the key, the empty file among
    them: [GetVersion] returns the empty string, [GetMemoryCap] returns 0, and
    [GetCpuInfo] returns the count alone, [x 0]. *)
Theorem probe_without_key (fs : FileSystem) (contents : string) :
  (fs !! _VERSION_ETC = Some (Contents contents) ->
   Forall (fun l => Contains l _VERSION_KEY = false) (Split contents newline) ->
   GetVersion fs = "") /\
  (fs !! _PROC_MEM_INFO = Some (Contents contents) ->
   Forall (fun l => Contains l _PROC_MEM_KEY = false) (Split contents newline) ->
   GetMemoryCap fs = 0%N) /\
  (fs !! _PROC_CPU_INFO = Some (Contents contents) ->
   Forall (fun l => Contains l _PROC_CPU_KEY = false) (Split contents newline) ->
   GetCpuInfo fs = "x 0").
Proof.
  split; [| split]; intros Hf Hno.
  - rewrite (GetVersion_readable fs contents Hf).
    rewrite <- (app_nil_r (Split contents newline)).
    rewrite (versionLoop_skip _ [] Hno). reflexivity.
  - rewrite (GetMemoryCap_readable fs contents Hf).
    rewrite <- (app_nil_r (Split contents newline)).
    rewrite (memLoop_skip _ [] Hno). reflexivity.
  - rewrite (GetCpuInfo_readable fs contents Hf), (cpuLoop_no_key _ "" 0 Hno).
    reflexivity.
Qed.

Lemma probe_without_key_witness :
  let fs : FileSystem :=
    {[ _VERSION_ETC := Contents ""; _PROC_MEM_INFO := Contents "";
       _PROC_CPU_INFO := Contents "" ]} in
  GetVersion fs = "" /\ GetMemoryCap fs = 0%N /\ GetCpuInfo fs = "x 0".
Proof.
  intros fs. destruct (probe_without_key fs "") as (Hv & Hm & Hc).
  split; [| split].
  - apply Hv; [vm_compute; reflexivity | repeat constructor].
  - apply Hm; [vm_compute; reflexivity | repeat constructor].
  - apply Hc; [vm_compute; reflexivity | repeat constructor].
Defined.




(** *** Memory *)


Lemma pow64_eq : (2 ^ 64 = 18446744073709551616)%N.
Proof. reflexivity. Qed.

(** [GetMemoryCap] always fits 64 bits and is a whole number of KiB, in
    bytes: a multiple of 1024. *)
Theorem GetMemoryCap_range (fs : FileSystem) :
  (GetMemoryCap fs < 2 ^ 64)%N /\ (GetMemoryCap fs mod 1024 = 0)%N.
Proof.
  assert (H0 : (0 < 2 ^ 64)%N /\ (0 mod 1024 = 0)%N) by (split; reflexivity).
  unfold GetMemoryCap. destruct (IsFileNotExist fs _PROC_MEM_INFO); [exact H0 |].
  destruct (ReadFile fs _PROC_MEM_INFO) as [contents |]; [| exact H0].
  split; [apply N.mod_lt; discriminate |].
  change (2 ^ 64)%N with (18014398509481984 * 1024)%N.
  rewrite N.Div0.mul_mod_distr_r. apply N.Div0.mod_mul.
Qed.









(** [GetSystemType] answers 32, 64 or 0, and 0 when the command fails. *)
Theorem GetSystemType_range (out : option string) :
  (GetSystemType out = 32 \/ GetSystemType out = 64 \/ GetSystemType out = 0)%Z /\
  GetSystemType None = 0%Z.
Proof.
  split; [| reflexivity]. destruct out as [o |]; simpl; [| tauto].
  destruct (Contains o "i386" || Contains o "i586" || Contains o "i686"); [tauto |].
  destruct (Contains o "x86_64"); tauto.
Qed.

(** *** Disks *)

Lemma inDriList_true (path : string) (driList : list string) :
  inDriList path driList = true <-> path ∈ driList.
Proof.
  induction driList as [| d rest IH]; simpl.
  - split; [discriminate | intros Hin; inversion Hin].
  - destruct (String.eqb_spec d path) as [-> | Hne].
    + split; [intros _; left | reflexivity].
    + rewrite IH, elem_of_cons. split; [tauto |]. intros [-> | Hin]; [contradiction | exact Hin].
Qed.

Lemma collectDrives_step (value : Interfaces) (rest : list Interfaces)
    (driList : list string) :
  collectDrives (value :: rest) driList =
    match blockDrive value with
    | NotBlock => collectDrives rest driList
    | BadDrive => Panics
    | DriveAt path =>
        if negb (String.eqb path "/") && negb (inDriList path driList)
        then collectDrives rest (driList ++ [path])
        else collectDrives rest driList
    end.
Proof.
  unfold blockDrive. simpl.
  destruct (value !! "org.freedesktop.UDisks2.Block") as [block |]; [| reflexivity].
  destruct (block !! "Drive") as [[path | b | n |] |]; try reflexivity.
  destruct (String.eqb path "/"); [reflexivity |]. simpl.
  destruct (inDriList path driList); reflexivity.
Qed.

Lemma collectDrives_panics (values : list Interfaces) (driList : list string) :
  collectDrives values driList = Panics <->
  Exists (fun value => blockDrive value = BadDrive) values.
Proof.
  revert driList. induction values as [| value rest IH]; intros driList.
  - simpl. split; [discriminate | intros H; inversion H].
  - rewrite collectDrives_step, Exists_cons.
    destruct (blockDrive value) as [| path |].
    + rewrite IH. split; [tauto | intros [H | H]; [discriminate | exact H]].
    + destruct (negb (String.eqb path "/") && negb (inDriList path driList));
        rewrite IH; (split; [tauto | intros [H | H]; [discriminate | exact H]]).
    + split; [left; reflexivity | reflexivity].
Qed.

Lemma collectDrives_returns (values : list Interfaces) (driList l : list string) :
  collectDrives values driList = Returns l ->
  NoDup driList ->
  NoDup l /\
  forall path, path ∈ l <->
    path ∈ driList \/
    (path <> "/" /\ exists value, value ∈ values /\ blockDrive value = DriveAt path).
Proof.
  revert driList. induction values as [| value rest IH]; intros driList E Hnd.
  - simpl in E. injection E as <-. split; [exact Hnd |].
    intros path. split; [tauto |]. intros [H | (_ & v & Hin & _)]; [exact H | inversion Hin].
  - rewrite collectDrives_step in E.
    assert (Hkeep : collectDrives rest driList = Returns l ->
              (forall path, blockDrive value = DriveAt path ->
                            path = "/" \/ path ∈ driList) ->
              NoDup l /\
              forall path, path ∈ l <->
                path ∈ driList \/
                (path <> "/" /\
                 exists v, v ∈ value :: rest /\ blockDrive v = DriveAt path)).
    { intros E' Hv. destruct (IH driList E' Hnd) as [Hl Hmem]. split; [exact Hl |].
      intros path. rewrite Hmem. split.
      - intros [H | (Hne & v & Hin & Hb)]; [left; exact H |].
        right. split; [exact Hne |]. exists v. split; [right; exact Hin | exact Hb].
      - intros [H | (Hne & v & Hin & Hb)]; [left; exact H |].
        apply elem_of_cons in Hin as [-> | Hin].
        + destruct (Hv path Hb) as [-> | H]; [contradiction | left; exact H].
        + right. split; [exact Hne |]. exists v. split; assumption. }
    destruct (blockDrive value) as [| p |] eqn:Hb; [| | discriminate].
    + apply Hkeep; [exact E | intros path H; discriminate].
    + destruct (String.eqb_spec p "/") as [-> | Hroot]; simpl in E.
      { apply Hkeep; [exact E | intros path [= <-]; left; reflexivity]. }
      destruct (inDriList p driList) eqn:Hin; simpl in E.
      { apply Hkeep; [exact E |]. intros path [= <-]. right.
        apply inDriList_true. exact Hin. }
      assert (Hp : p ∉ driList).
      { intros H. apply inDriList_true in H. congruence. }
      assert (Hnd' : NoDup (driList ++ [p])).
      { apply NoDup_app. split; [exact Hnd | split; [| apply NoDup_singleton]].
        intros x Hx Hx'. apply list_elem_of_singleton in Hx'. subst. contradiction. }
      destruct (IH _ E Hnd') as [Hl Hmem]. split; [exact Hl |].
      intros path. rewrite Hmem, elem_of_app, list_elem_of_singleton. split.
      * intros [[H | ->] | (Hne & v & Hv & Hbv)].
        -- left. exact H.
        -- right. split; [exact Hroot |]. exists value. split; [left | exact Hb].
        -- right. split; [exact Hne |]. exists v. split; [right; exact Hv | exact Hbv].
      * intros [H | (Hne & v & Hv & Hbv)]; [left; left; exact H |].
        apply elem_of_cons in Hv as [-> | Hv].
        -- rewrite Hb in Hbv. injection Hbv as ->. left. right. reflexivity.
        -- right. split; [exact Hne |]. exists v. split; assumption.
Qed.

(** The drives the first loop of [GetDiskCap] hands to the second: the
    paths, other than [/], that the [Drive] of some block device names, each
    of them once however many block devices name it. *)
Theorem GetDiskCap_drive_list (values : list Interfaces) (l : list string) :
  collectDrives values [] = Returns l ->
  NoDup l /\
  forall path, path ∈ l <->
    path <> "/" /\ exists value, value ∈ values /\ blockDrive value = DriveAt path.
Proof.
  intros E. destruct (collectDrives_returns values [] l E (NoDup_nil_2 (A:=string))) as [Hnd Hmem].
  split; [exact Hnd |]. intros path. rewrite Hmem. split; [| tauto].
  intros [H | H]; [inversion H | exact H].
Qed.

Lemma GetDiskCap_drive_list_witness :
  NoDup ["/drives/sda"; "/drives/sdb"; "/drives/usb"] /\
  forall path, path ∈ ["/drives/sda"; "/drives/sdb"; "/drives/usb"] <->
    path <> "/" /\
    exists value, value ∈ map snd sampleObjects /\ blockDrive value = DriveAt path.
Proof.
  apply (GetDiskCap_drive_list (map snd sampleObjects)). vm_compute. reflexivity.
Defined.

Lemma sumDrives_step (managers : ManagedObjects) (driver : string)
    (rest : list string) (diskCap : N) :
  sumDrives managers (driver :: rest) diskCap =
    match driveKind managers driver with
    | PassOver => sumDrives managers rest diskCap
    | AddSize size => sumDrives managers rest ((diskCap + size) mod 2 ^ 64)
    | BadProperty => Panics
    end.
Proof.
  unfold driveKind. simpl. destruct (managers !! driver); [| reflexivity].
  destruct (driveProperty managers driver "Removable") as [[p | [|] | n |] |];
    try reflexivity.
  destruct (driveProperty managers driver "Size") as [[p | b | n |] |]; reflexivity.
Qed.

Lemma sumDrives_perm (managers : ManagedObjects) (l1 l2 : list string) :
  l1 ≡ₚ l2 -> forall diskCap, sumDrives managers l1 diskCap = sumDrives managers l2 diskCap.
Proof.
  induction 1 as [| x l1 l2 _ IH | x y l | l1 l2 l3 _ IH1 _ IH2]; intros diskCap.
  - reflexivity.
  - rewrite !sumDrives_step. destruct (driveKind managers x); [apply IH | apply IH | reflexivity].
  - rewrite !sumDrives_step.
    destruct (driveKind managers x) as [| sx |] eqn:Hx,
             (driveKind managers y) as [| sy |] eqn:Hy;
      rewrite ?sumDrives_step, ?Hx, ?Hy; try reflexivity.
    apply (f_equal (sumDrives managers l)).
    rewrite !N.Div0.add_mod_idemp_l. apply (f_equal (fun n => (n mod 2 ^ 64)%N)). lia.
  - rewrite IH1. apply IH2.
Qed.

Lemma sumDrives_panics (managers : ManagedObjects) (l : list string) (diskCap : N) :
  sumDrives managers l diskCap = Panics <->
  exists path, path ∈ l /\ driveKind managers path = BadProperty.
Proof.
  revert diskCap. induction l as [| d rest IH]; intros diskCap.
  - simpl. split; [discriminate | intros (p & Hin & _); inversion Hin].
  - rewrite sumDrives_step.
    destruct (driveKind managers d) as [| size |] eqn:Hk.
    + rewrite IH. split.
      * intros (p & Hin & Hp). exists p. split; [right; exact Hin | exact Hp].
      * intros (p & Hin & Hp). apply elem_of_cons in Hin as [-> | Hin]; [congruence |].
        exists p. split; assumption.
    + rewrite IH. split.
      * intros (p & Hin & Hp). exists p. split; [right; exact Hin | exact Hp].
      * intros (p & Hin & Hp). apply elem_of_cons in Hin as [-> | Hin]; [congruence |].
        exists p. split; assumption.
    + split; [| reflexivity]. intros _. exists d. split; [left | exact Hk].
Qed.

(** [GetDiskCap] does not depend on the order in which the map of managed
    objects is visited: two runs over the same objects in different orders
    return the same capacity, or both stop in a failed type assertion. *)
Theorem GetDiskCap_order_independent (udisks : option ManagedObjects)
    (order1 order2 : list (string * Interfaces)) :
  order1 ≡ₚ order2 -> GetDiskCap udisks order1 = GetDiskCap udisks order2.
Proof.
  intros Hperm. destruct udisks as [managers |]; [| reflexivity]. unfold GetDiskCap.
  assert (Hvalues : map snd order1 ≡ₚ map snd order2) by (rewrite Hperm; reflexivity).
  destruct (collectDrives (map snd order1) []) as [l1 |] eqn:E1,
           (collectDrives (map snd order2) []) as [l2 |] eqn:E2.
  - apply sumDrives_perm.
    destruct (collectDrives_returns _ _ _ E1 (NoDup_nil_2 (A:=string))) as [Hnd1 Hm1].
    destruct (collectDrives_returns _ _ _ E2 (NoDup_nil_2 (A:=string))) as [Hnd2 Hm2].
    apply NoDup_Permutation; [exact Hnd1 | exact Hnd2 |].
    intros path. rewrite Hm1, Hm2.
    split; intros [H | (Hne & v & Hin & Hb)]; try (inversion H; fail);
      right; (split; [exact Hne |]); exists v; (split; [| exact Hb]).
    + rewrite <- Hvalues. exact Hin.
    + rewrite Hvalues. exact Hin.
  - apply collectDrives_panics in E2. rewrite <- Hvalues in E2.
    apply collectDrives_panics with (driList := []) in E2. congruence.
  - apply collectDrives_panics in E1. rewrite Hvalues in E1.
    apply collectDrives_panics with (driList := []) in E1. congruence.
  - reflexivity.
Qed.

Lemma GetDiskCap_order_independent_witness :
  GetDiskCap (Some sampleManagers) sampleObjects
    = GetDiskCap (Some sampleManagers) (reverse sampleObjects).
Proof.
  apply (GetDiskCap_order_independent (Some sampleManagers)).
  symmetry. apply reverse_Permutation.
Defined.

(** When [GetDiskCap] stops in a failed type assertion: exactly when some
    block device has a [Drive] that is missing or is no object path, or when
    a drive named by a block device is among the managed objects and has a
    [Removable] that is missing or no boolean, or is not removable and has a
    [Size] that is missing or no 64-bit number. *)
Theorem GetDiskCap_panics_iff (managers : ManagedObjects)
    (order : list (string * Interfaces)) :
  GetDiskCap (Some managers) order = Panics <->
  (exists value, value ∈ map snd order /\ blockDrive value = BadDrive) \/
  (exists value path,
     value ∈ map snd order /\ blockDrive value = DriveAt path /\ path <> "/" /\
     driveKind managers path = BadProperty).
Proof.
  unfold GetDiskCap.
  destruct (collectDrives (map snd order) []) as [l |] eqn:E.
  - rewrite sumDrives_panics.
    destruct (collectDrives_returns _ _ _ E (NoDup_nil_2 (A:=string))) as [_ Hmem].
    split.
    + intros (path & Hin & Hk). right. apply Hmem in Hin as [Hin | (Hne & v & Hv & Hb)];
        [inversion Hin |]. exists v, path. tauto.
    + intros [(v & Hv & Hb) | (v & path & Hv & Hb & Hne & Hk)].
      * assert (Hp : collectDrives (map snd order) [] = Panics).
        { apply collectDrives_panics, Exists_exists. exists v. split; assumption. }
        congruence.
      * exists path. split; [| exact Hk]. apply Hmem. right.
        split; [exact Hne |]. exists v. split; assumption.
  - split; [| reflexivity]. intros _. left.
    apply collectDrives_panics, Exists_exists in E. exact E.
Qed.

Lemma sumDrives_total (managers : ManagedObjects) (l : list string) (diskCap : N) :
  (diskCap < 2 ^ 64)%N ->
  (forall path, path ∈ l -> driveKind managers path <> BadProperty) ->
  sumDrives managers l diskCap = Returns ((diskCap + totalSize managers l) mod 2 ^ 64)%N.
Proof.
  revert diskCap. induction l as [| d rest IH]; intros diskCap Hlt Hok.
  - simpl. rewrite N.add_0_r, N.mod_small by exact Hlt. reflexivity.
  - rewrite sumDrives_step. simpl totalSize. unfold driveSize at 1.
    assert (Hrest : forall path, path ∈ rest -> driveKind managers path <> BadProperty).
    { intros path Hin. apply Hok. right. exact Hin. }
    destruct (driveKind managers d) as [| size |] eqn:Hk.
    + rewrite (IH diskCap Hlt Hrest). reflexivity.
    + rewrite IH; [| apply N.mod_lt; discriminate | exact Hrest].
      rewrite N.Div0.add_mod_idemp_l. f_equal. f_equal. lia.
    + exfalso. apply (Hok d); [left | exact Hk].
Qed.

(** The capacity [GetDiskCap] returns when no type assertion fails: the sum,
    cut to 64 bits, of the sizes of the drives in the list of the first loop,
    where a drive that is removable or is not among the managed objects
    counts for nothing. *)
Theorem GetDiskCap_value (managers : ManagedObjects)
    (order : list (string * Interfaces)) (l : list string) :
  collectDrives (map snd order) [] = Returns l ->
  (forall path, path ∈ l -> driveKind managers path <> BadProperty) ->
  GetDiskCap (Some managers) order = Returns (totalSize managers l mod 2 ^ 64)%N.
Proof.
  intros E Hok. unfold GetDiskCap. rewrite E.
  rewrite (sumDrives_total managers l 0 eq_refl Hok). reflexivity.
Qed.

Lemma GetDiskCap_value_witness :
  GetDiskCap (Some sampleManagers) sampleObjects
    = Returns (totalSize sampleManagers ["/drives/sda"; "/drives/sdb"; "/drives/usb"]
               mod 2 ^ 64)%N /\
  totalSize sampleManagers ["/drives/sda"; "/drives/sdb"; "/drives/usb"]
    = (500107862016 + 1000204886016)%N.
Proof.
  split; [| vm_compute; reflexivity].
  apply (GetDiskCap_value sampleManagers sampleObjects).
  - vm_compute. reflexivity.
  - intros path Hin.
    repeat (apply elem_of_cons in Hin as [-> | Hin]; [vm_compute; discriminate |]).
    inversion Hin.
Defined.

Example GetDiskCap_sample :
  GetDiskCap (Some sampleManagers) sampleObjects = Returns 1500312748032%N.
Proof. vm_compute. reflexivity. Qed.

Example GetDiskCap_bad_drive :
  GetDiskCap (Some ∅)
    [("/block/x", {[ "org.freedesktop.UDisks2.Block" := (∅ : gmap string Variant) ]})]
    = Panics.
Proof. vm_compute. reflexivity. Qed.

End ProbeFacts.

(** ** More on the manager *)

Module ManagerMore.
Import GoStrings Dock SliceFacts ManagerFacts.

Section More.
Context {DS : Type} `{!DockState DS}.
Implicit Types (w : World DS) (s id : string) (apps ids : list string).

Lemma serve_syncState (r : Request) w :
  match syncState r w with
  | None => exists ds, serve r w = (Done false, setDockState ds (record (delegation r) w))
  | Some ds =>
      exists id,
        serve r w =
          bind saveDockedAppList
            (fun _ => bind (emitSignal (signalName r) id) (fun _ => ret true))
            (setDockState ds (record (delegation r) w))
  end.
Proof.
  destruct r as [id title icon cmd | id]; simpl;
    unfold RequestDock, requestDock, RequestUndock, undockEntryByAppId,
      dockAppEntry, undockAppEntry; run.
  - destruct (DockStateDock (dockState w) id title icon cmd) as [[ds entry] |].
    + destruct (appInfo entry) as [info |].
      * exists (GetId info). reflexivity.
      * exists ds. reflexivity.
    + exists (dockState w). destruct w; reflexivity.
  - destruct (DockStateUndock (dockState w) id) as [ds |].
    + exists id. reflexivity.
    + exists (dockState w). destruct w; reflexivity.
Qed.


(** With a handle on the backend the stored list and the cached list, once
    equal, stay equal through every request, and the handle stays. *)
Theorem stored_list_follows_cache (r : Request) w s :
  settings (manager w) = Some s ->
  storedStrv w s settingKeyDockedApps = dockedAppList (manager w) ->
  settings (manager (snd (serve r w))) = Some s /\
  storedStrv (snd (serve r w)) s settingKeyDockedApps
    = dockedAppList (manager (snd (serve r w))).
Proof.
  intros Hs Hst. pose proof (serve_syncState r w) as Hsv.
  destruct (syncState r w) as [ds |].
  - destruct Hsv as (id & ->).
    set (W := setDockState ds (record (delegation r) w)).
    destruct (decide (dockedAppList (manager W) = CurrentDockedIds (dockState W)))
      as [Heq | Hne].
    + rewrite (bind_done _ _ _ _ _ (saveDockedAppList_same W Heq)). simpl.
      split; [exact Hs | exact Hst].
    + rewrite (bind_done _ _ _ _ _ (saveDockedAppList_differ W s Hs Hne)). simpl.
      split; [reflexivity |]. unfold storedStrv. simpl. apply putStrv_lookup.
  - destruct Hsv as (ds & ->). simpl. split; [exact Hs | exact Hst].
Qed.

(** After a request that is answered [true] the cached list is the list of
    the dock manager. *)
Theorem accepted_request_syncs (r : Request) w w' :
  serve r w = (Done true, w') ->
  dockedAppList (manager w') = CurrentDockedIds (dockState w').
Proof.
  intros E. pose proof (serve_syncState r w) as Hsv.
  destruct (syncState r w) as [ds |].
  - destruct Hsv as (id & E1). rewrite E1 in E. clear E1.
    set (W := setDockState ds (record (delegation r) w)) in *.
    destruct (decide (dockedAppList (manager W) = CurrentDockedIds (dockState W)))
      as [Heq | Hne].
    + rewrite (bind_done _ _ _ _ _ (saveDockedAppList_same W Heq)) in E.
      injection E as <-. exact Heq.
    + destruct (settings (manager W)) as [s |] eqn:Hs.
      * rewrite (bind_done _ _ _ _ _ (saveDockedAppList_differ W s Hs Hne)) in E.
        injection E as <-. reflexivity.
      * rewrite (bind_panic _ _ _ _ (saveDockedAppList_nil W Hs Hne)) in E.
        discriminate.
  - destruct Hsv as (ds & E1). rewrite E1 in E. discriminate.
Qed.

(** A second sync right after a sync only asks the dock manager: it finds the
    lists equal and writes nothing. *)
Theorem sync_twice_writes_once w s :
  settings (manager w) = Some s ->
  saveDockedAppList (snd (saveDockedAppList w))
    = (Done tt, record QueryDockState (snd (saveDockedAppList w))).
Proof.
  intros Hs. apply saveDockedAppList_same.
  destruct (decide (dockedAppList (manager w) = CurrentDockedIds (dockState w)))
    as [Heq | Hne].
  - rewrite (saveDockedAppList_same w Heq). exact Heq.
  - rewrite (saveDockedAppList_differ w s Hs Hne). reflexivity.
Qed.

Lemma RequestDock_unfold (id title icon cmd : string) w :
  RequestDock id title icon cmd w =
    match DockStateDock (dockState w) id title icon cmd with
    | None => (Done false, record (DelegateDock id title icon cmd) w)
    | Some (ds, entry) =>
        dockAppEntry entry (setDockState ds (record (DelegateDock id title icon cmd) w))
    end.
Proof.
  unfold RequestDock, requestDock. run.
  destruct (DockStateDock (dockState w) id title icon cmd) as [[ds entry] |];
    reflexivity.
Qed.

(** A request to dock raises [Docked] once when it is answered [true], with
    the id of the application of the entry the dock manager handed over, and
    raises nothing otherwise. *)
Theorem dock_signal (id title icon cmd : string) w (res : Res bool) w' :
  RequestDock id title icon cmd w = (res, w') ->
  (res = Done true ->
   exists ds entry info,
     DockStateDock (dockState w) id title icon cmd = Some (ds, entry) /\
     appInfo entry = Some info /\
     signals (log w') = signals (log w) ++ [Signal "Docked" (GetId info)]) /\
  (res <> Done true -> signals (log w') = signals (log w)).
Proof.
  intros E. rewrite RequestDock_unfold in E.
  assert (Hquiet : signals (log (record (DelegateDock id title icon cmd) w))
                   = signals (log w)).
  { simpl. rewrite signals_app. apply app_nil_r. }
  destruct (DockStateDock (dockState w) id title icon cmd) as [[ds entry] |].
  - unfold dockAppEntry in E. destruct (appInfo entry) as [info |] eqn:Hinfo.
    + set (W := setDockState ds (record (DelegateDock id title icon cmd) w)) in *.
      destruct (saveDockedAppList_frame W) as (delta & Hlog & Hsig & _).
      destruct (sync_then_signal "Docked" (GetId info) W) as [[_ E2] | [_ E2]];
        rewrite E2 in E; injection E as <- <-.
      * split; [| intros H; contradiction]. intros _. exists ds, entry, info.
        split; [reflexivity | split; [exact Hinfo |]].
        simpl. rewrite Hlog. subst W. simpl. rewrite !signals_app, Hsig. simpl.
        rewrite ?app_nil_r. reflexivity.
      * split; [discriminate |]. intros _.
        rewrite Hlog. subst W. simpl. rewrite !signals_app, Hsig. simpl.
        rewrite ?app_nil_r. reflexivity.
    + injection E as <- <-. split; [discriminate |]. intros _. exact Hquiet.
  - injection E as <- <-. split; [discriminate |]. intros _. exact Hquiet.
Qed.

(** *** The migration, step by step *)

Lemma migrateEntry_steps (conf : KeyFile) id w :
  migrateEntry conf id w = (Done tt, extendLog (entrySteps conf (installed w) id) w).
Proof.
  unfold migrateEntry, entrySteps. run. destruct (isStrInSlice id (installed w)).
  - rewrite extendLog_nil. reflexivity.
  - unfold record. rewrite !extendLog_app. reflexivity.
Qed.

Lemma forEach_migrateEntry_steps (conf : KeyFile) ids w :
  forEach ids (migrateEntry conf) w
    = (Done tt, extendLog (flat_map (entrySteps conf (installed w)) ids) w).
Proof.
  revert w. induction ids as [| id rest IH]; intros w; simpl.
  - rewrite extendLog_nil. reflexivity.
  - rewrite (bind_done _ _ _ _ _ (migrateEntry_steps conf id w)), IH, extendLog_app.
    reflexivity.
Qed.

Lemma handleOld_migrate_steps w (conf : KeyFile) ids s :
  confFile w = Some conf ->
  keyFileGetBoolean conf "__Config__" "inited" <> Ok true ->
  keyFileGetStringList conf "__Config__" "Position" = Ok ids ->
  settings (manager w) = Some s ->
  handleOldConfigFile w =
    (Done tt,
     migratedWorld s conf (uniqStrSlice ids)
       (flat_map (entrySteps conf (installed w)) (uniqStrSlice ids)) w).
Proof.
  intros Hf Hb Hp Hs.
  pose proof (forEach_migrateEntry_steps conf (uniqStrSlice ids)
                (record (LegacyRead "__Config__" "Position") (flagChecked w))) as Eloop.
  simpl installed in Eloop.
  unfold handleOldConfigFile.
  rewrite (bind_done _ _ _ _ _ (LoadFromFile_run w)), Hf.
  rewrite (bind_done _ _ _ _ _ (GetBoolean_run conf _ _ _)).
  fold (flagChecked w).
  destruct (keyFileGetBoolean conf "__Config__" "inited") as [[|] | e'];
    [contradiction | |].
  all: rewrite (bind_done _ _ _ _ _ (GetStringList_run conf _ _ _)), Hp.
  all: cbv zeta.
  all: rewrite (bind_done _ _ _ _ _ Eloop).
  all: rewrite (bind_done _ _ _ _ _
                 (saveAppList_bound
                    (extendLog (flat_map (entrySteps conf (installed w)) (uniqStrSlice ids))
                       (record (LegacyRead "__Config__" "Position") (flagChecked w)))
                    s _ Hs)).
  all: unfold migratedWorld; run.
  all: destruct (confSerializable w); simpl; [| reflexivity].
  all: destruct (confWritable w); reflexivity.
Qed.

Lemma scratch_of_steps (conf : KeyFile) (installedIds ids : list string) :
  List.filter isScratch (flat_map (entrySteps conf installedIds) ids)
    = map (scratchFor conf)
          (List.filter (fun id => negb (isStrInSlice id installedIds)) ids).
Proof.
  induction ids as [| id rest IH]; [reflexivity |].
  simpl. rewrite List.filter_app, IH. unfold entrySteps.
  destruct (isStrInSlice id installedIds); reflexivity.
Qed.

Lemma writes_of_steps (conf : KeyFile) (installedIds ids : list string) :
  List.filter isLegacyWrite (flat_map (entrySteps conf installedIds) ids) = [].
Proof.
  induction ids as [| id rest IH]; [reflexivity |].
  simpl. rewrite List.filter_app, IH. unfold entrySteps.
  destruct (isStrInSlice id installedIds); reflexivity.
Qed.

(** A migration creates a scratch desktop file for each id of the old list
    that has no installed application, once per id and in the order of the
    deduplicated list, with the name, icon and command line the old file has
    for the id, empty where it has none; it creates none for the others. *)
Theorem migration_scratch_files w (conf : KeyFile) ids s :
  confFile w = Some conf ->
  keyFileGetBoolean conf "__Config__" "inited" <> Ok true ->
  keyFileGetStringList conf "__Config__" "Position" = Ok ids ->
  settings (manager w) = Some s ->
  List.filter isScratch (log (snd (handleOldConfigFile w)))
    = List.filter isScratch (log w) ++
      map (scratchFor conf)
          (List.filter (fun id => negb (isStrInSlice id (installed w)))
                       (uniqStrSlice ids)).
Proof.
  intros Hf Hb Hp Hs. rewrite (handleOld_migrate_steps w conf ids s Hf Hb Hp Hs).
  unfold migratedWorld. simpl snd.
  destruct (confSerializable w); [destruct (confWritable w) |]; simpl;
    rewrite !List.filter_app, scratch_of_steps; simpl; rewrite ?app_nil_r; reflexivity.
Qed.

Lemma rawValue_after_flag (conf : KeyFile) (g : gmap string string) (group key : string) :
  conf !! "__Config__" = Some g ->
  (group, key) <> ("__Config__", "inited") ->
  rawValue (keyFileSetBoolean conf "__Config__" "inited" true) group key
    = rawValue conf group key.
Proof.
  intros Hg Hne. unfold rawValue, keyFileSetBoolean. rewrite Hg. simpl.
  destruct (decide (group = "__Config__")) as [-> | Hgroup].
  - rewrite lookup_insert_eq, Hg.
    rewrite lookup_insert_ne by (intros <-; apply Hne; reflexivity). reflexivity.
  - rewrite lookup_insert_ne by (intros Heq; apply Hgroup; symmetry; exact Heq).
    reflexivity.
Qed.

(** The end of a migration.  When the key file can be serialised, the old
    file is written once, with the mode [os.Lstat] reports for it, or 0666
    when [Lstat] fails.  A write that succeeds leaves the file with the flag
    set and every other value as it was; a write that fails leaves the file
    as it was. *)
Theorem migration_write_back w (conf : KeyFile) ids s :
  confFile w = Some conf ->
  keyFileGetBoolean conf "__Config__" "inited" <> Ok true ->
  keyFileGetStringList conf "__Config__" "Position" = Ok ids ->
  settings (manager w) = Some s ->
  confSerializable w = true ->
  let w1 := snd (handleOldConfigFile w) in
  List.filter isLegacyWrite (log w1)
    = List.filter isLegacyWrite (log w) ++ [LegacyWrite (default 438%N (confMode w))] /\
  (confWritable w = false -> confFile w1 = Some conf) /\
  (confWritable w = true ->
   exists conf' : KeyFile,
     confFile w1 = Some conf' /\
     keyFileGetBoolean conf' "__Config__" "inited" = Ok true /\
     forall group key, (group, key) <> ("__Config__", "inited") ->
                       rawValue conf' group key = rawValue conf group key).
Proof.
  intros Hf Hb Hp Hs Hser w1. subst w1.
  rewrite (handleOld_migrate_steps w conf ids s Hf Hb Hp Hs).
  unfold migratedWorld. rewrite Hser. simpl snd.
  assert (Hg : exists g, conf !! "__Config__" = Some g).
  { unfold keyFileGetStringList, rawValue in Hp.
    destruct (conf !! "__Config__") as [g |]; [exists g; reflexivity | discriminate]. }
  destruct Hg as [g Hg].
  split; [| split].
  - destruct (confWritable w); simpl; rewrite !List.filter_app, writes_of_steps; simpl;
      rewrite ?app_nil_r; destruct (confMode w); reflexivity.
  - intros ->. exact Hf.
  - intros ->. exists (keyFileSetBoolean conf "__Config__" "inited" true).
    split; [reflexivity | split; [apply keyFileGetBoolean_set |]].
    intros group key Hne. exact (rawValue_after_flag conf g group key Hg Hne).
Qed.

(** What [handleOldConfigFile] never does, whatever the old file: it leaves
    the manager, its cached list included, and the dock manager as they were,
    raises no signal, does not ask the dock manager, and writes the backend
    at most once. *)
Theorem migration_frame w s :
  settings (manager w) = Some s ->
  let w1 := snd (handleOldConfigFile w) in
  manager w1 = manager w /\ dockState w1 = dockState w /\
  exists delta,
    log w1 = (log w ++ delta) /\
    signals delta = [] /\ (QueryDockState ∉ delta) /\
    List.length (backendWrites delta) <= 1.
Proof.
  intros Hs w1. subst w1. destruct (confFile w) as [conf |] eqn:Hf.
  2: { rewrite (handleOld_nofile w Hf). split; [reflexivity | split; [reflexivity |]].
       exists [LegacyLoad]. simpl. repeat split; try reflexivity; [| lia].
       intros Hin. apply list_elem_of_singleton in Hin. discriminate. }
  destruct (inited_cases (keyFileGetBoolean conf "__Config__" "inited")) as [Hb | Hb].
  { rewrite (handleOld_inited w conf Hf Hb). split; [reflexivity | split; [reflexivity |]].
    exists [LegacyLoad; LegacyRead "__Config__" "inited"]. simpl.
    rewrite <- app_assoc. repeat split; try reflexivity; [| lia].
    intros Hin. repeat (apply elem_of_cons in Hin as [Hin | Hin]; [discriminate |]).
    inversion Hin. }
  destruct (keyFileGetStringList conf "__Config__" "Position") as [ids | e] eqn:Hp.
  2: { rewrite (handleOld_noposition w conf e Hf Hb Hp).
       split; [reflexivity | split; [reflexivity |]].
       exists [LegacyLoad; LegacyRead "__Config__" "inited";
               LegacyRead "__Config__" "Position"]. simpl.
       rewrite <- !app_assoc. repeat split; try reflexivity; [| lia].
       intros Hin. repeat (apply elem_of_cons in Hin as [Hin | Hin]; [discriminate |]).
       inversion Hin. }
  destruct (handleOld_migrate w conf ids s Hf Hb Hp Hs) as (delta & E & Fd).
  rewrite E. simpl snd.
  assert (Hq : QueryDockState ∉ delta).
  { intros Hin. rewrite Forall_forall in Fd. specialize (Fd _ Hin). discriminate. }
  assert (Hquiet : signals delta = [] /\ backendWrites delta = []).
  { clear -Fd. unfold signals, backendWrites.
    induction Fd as [| e l He _ [IH1 IH2]]; [split; reflexivity |].
    simpl. rewrite IH1, IH2. destruct e; try discriminate; split; reflexivity. }
  destruct Hquiet as [Hsig Hwr].
  set (mode := match confMode w with Some m => m | None => 438%N end).
  split; [unfold migratedWorld;
          destruct (confSerializable w); [destruct (confWritable w) |]; reflexivity |].
  split; [unfold migratedWorld;
          destruct (confSerializable w); [destruct (confWritable w) |]; reflexivity |].
  exists ([LegacyLoad; LegacyRead "__Config__" "inited";
           LegacyRead "__Config__" "Position"] ++ delta ++
          [BackendSet s settingKeyDockedApps (uniqStrSlice ids); BackendSync] ++
          (if confSerializable w then [LegacyWrite mode] else [])).
  unfold migratedWorld. split; [| split; [| split]].
  - destruct (confSerializable w); [destruct (confWritable w) |]; simpl;
      rewrite <- ?app_assoc; simpl; rewrite ?app_nil_r; reflexivity.
  - simpl. rewrite signals_app, Hsig. simpl.
    destruct (confSerializable w); reflexivity.
  - intros Hin. repeat (apply elem_of_cons in Hin as [Hin | Hin]; [discriminate |]).
    apply elem_of_app in Hin as [Hin | Hin]; [contradiction |].
    repeat (apply elem_of_cons in Hin as [Hin | Hin]; [discriminate |]).
    destruct (confSerializable w); [| inversion Hin].
    apply list_elem_of_singleton in Hin. discriminate.
  - simpl. rewrite backendWrites_app, Hwr. simpl.
    destruct (confSerializable w); simpl; lia.
Qed.

(** *** Start-up *)

Lemma handleOld_confFile w s :
  settings (manager w) = Some s ->
  confFile (snd (handleOldConfigFile w)) = confFile w \/
  migrationFlag (snd (handleOldConfigFile w)) = true.
Proof.
  intros Hs. destruct (confFile w) as [conf |] eqn:Hf.
  2: { rewrite (handleOld_nofile w Hf). left. exact Hf. }
  destruct (inited_cases (keyFileGetBoolean conf "__Config__" "inited")) as [Hb | Hb].
  { rewrite (handleOld_inited w conf Hf Hb). left. exact Hf. }
  destruct (keyFileGetStringList conf "__Config__" "Position") as [ids | e] eqn:Hp.
  2: { rewrite (handleOld_noposition w conf e Hf Hb Hp). left. exact Hf. }
  destruct (handleOld_migrate w conf ids s Hf Hb Hp Hs) as (delta & E & _).
  rewrite E. unfold migratedWorld, migrationFlag. simpl snd.
  destruct (confSerializable w); [destruct (confWritable w) |]; simpl;
    [right; rewrite keyFileGetBoolean_set; reflexivity | left; exact Hf | left; exact Hf].
Qed.

Lemma startupInput_with_flag w :
  migrationFlag w = true -> startupInput w = persisted w.
Proof.
  unfold migrationFlag, startupInput. destruct (confFile w) as [conf |]; [| reflexivity].
  destruct (keyFileGetBoolean conf "__Config__" "inited") as [[|] | e];
    [reflexivity | discriminate | discriminate].
Qed.

Lemma started_lists w (g : gmap string (list string)) :
  schemas w !! dockSchema = Some g ->
  dockedAppList (manager (snd (NewDockedAppManager w))) = uniqStrSlice (startupInput w) /\
  persisted (snd (NewDockedAppManager w)) = uniqStrSlice (startupInput w).
Proof.
  intros Hg. rewrite (NewDockedAppManager_run w g Hg). simpl snd.
  pose proof (handleOld_stored (handleAcquired w) eq_refl) as Hst.
  split; [exact Hst |].
  unfold persisted at 1. unfold storedStrv, loadedAndSaved. simpl.
  rewrite putStrv_lookup. exact Hst.
Qed.

(** A manager that is started again, with no request in between, comes up
    with the list it had: the second start-up completes, and caches and
    persists the same list as the first. *)
Theorem restart_keeps_list w (g : gmap string (list string)) :
  schemas w !! dockSchema = Some g ->
  let w1 := snd (NewDockedAppManager w) in
  let w2 := snd (NewDockedAppManager w1) in
  fst (NewDockedAppManager w1) = Done tt /\
  dockedAppList (manager w2) = dockedAppList (manager w1) /\
  persisted w2 = persisted w1.
Proof.
  intros Hg w1 w2.
  destruct (started_lists w g Hg) as [Hc1 Hp1]. fold w1 in Hc1, Hp1.
  assert (Hg1 : exists g1, schemas w1 !! dockSchema = Some g1).
  { subst w1. rewrite (NewDockedAppManager_run w g Hg).
    unfold loadedAndSaved, putStrv. simpl. rewrite lookup_insert_eq. eexists. reflexivity. }
  destruct Hg1 as [g1 Hg1].
  destruct (started_lists w1 g1 Hg1) as [Hc2 Hp2]. fold w2 in Hc2, Hp2.
  assert (Hin : uniqStrSlice (startupInput w1) = uniqStrSlice (startupInput w)).
  { assert (Hidem : uniqStrSlice (persisted w1) = uniqStrSlice (startupInput w)).
    { rewrite Hp1. apply uniqStrSlice_idem. }
    assert (Hcf : confFile w1 = confFile (snd (handleOldConfigFile (handleAcquired w))) /\
                  migrationFlag w1
                  = migrationFlag (snd (handleOldConfigFile (handleAcquired w)))).
    { subst w1. rewrite (NewDockedAppManager_run w g Hg). split; reflexivity. }
    destruct Hcf as [Hcf Hfl].
    destruct (handleOld_confFile (handleAcquired w) dockSchema eq_refl) as [Hsame | Hset].
    - rewrite Hsame in Hcf. simpl in Hcf.
      unfold startupInput in Hidem |- *. rewrite Hcf.
      destruct (confFile w) as [conf |]; [| exact Hidem].
      destruct (keyFileGetBoolean conf "__Config__" "inited") as [[|] | e];
        [exact Hidem | |];
        (destruct (keyFileGetStringList conf "__Config__" "Position") as [ids | e'];
         [reflexivity | exact Hidem]).
    - rewrite Hset in Hfl. rewrite (startupInput_with_flag w1 Hfl). exact Hidem. }
  split.
  - subst w1. rewrite (NewDockedAppManager_run _ g1 Hg1). reflexivity.
  - split; [rewrite Hc2, Hc1; exact Hin | rewrite Hp2, Hp1; exact Hin].
Qed.

(** After a start-up [IsDocked] answers [true] exactly for the ids of the
    sequence the start-up worked from. *)
Theorem IsDocked_after_startup w (g : gmap string (list string)) (id : string) :
  schemas w !! dockSchema = Some g ->
  fst (IsDocked id (snd (NewDockedAppManager w)))
    = Done (bool_decide (id ∈ startupInput w)).
Proof.
  intros Hg. unfold IsDocked. run.
  destruct (started_lists w g Hg) as [Hc _]. rewrite Hc, isStrInSlice_decide.
  f_equal. apply bool_decide_ext. apply uniqStrSlice_spec.
Qed.

(** Without the schema of the dock the start-up stops at the missing handle:
    the old configuration is not looked at, nothing is read or written, and
    the manager is left with no handle and an empty list, so that [IsDocked]
    answers [false] for every id. *)
Theorem startup_without_backend w :
  schemas w !! dockSchema = None ->
  let w' := snd (NewDockedAppManager w) in
  fst (NewDockedAppManager w) = Done tt /\
  manager w' = {| settings := None; dockedAppList := [] |} /\
  log w' = log w /\ schemas w' = schemas w /\ confFile w' = confFile w /\
  forall id, IsDocked id w' = (Done false, w').
Proof.
  intros Hg w'. subst w'. rewrite (NewDockedAppManager_no_backend w Hg).
  repeat split.
Qed.

End More.

(** *** Runs on the sample worlds *)

Lemma stored_list_follows_cache_witness :
  let r := DockRequest "z" "Z" "z.png" "/usr/bin/z" in
  settings (manager (snd (serve r worldReady))) = Some dockSchema /\
  storedStrv (snd (serve r worldReady)) dockSchema settingKeyDockedApps
    = dockedAppList (manager (snd (serve r worldReady))).
Proof.
  intros r. apply (stored_list_follows_cache r worldReady dockSchema); reflexivity.
Defined.

Lemma accepted_request_syncs_witness :
  let r := DockRequest "z" "Z" "z.png" "/usr/bin/z" in
  dockedAppList (manager (snd (serve r worldReady)))
    = CurrentDockedIds (dockState (snd (serve r worldReady))).
Proof.
  intros r. apply (accepted_request_syncs r worldReady). vm_compute. reflexivity.
Defined.

Lemma sync_twice_writes_once_witness :
  saveDockedAppList (snd (saveDockedAppList worldDrift))
    = (Done tt, record QueryDockState (snd (saveDockedAppList worldDrift))).
Proof. apply (sync_twice_writes_once worldDrift dockSchema). reflexivity. Defined.

Lemma dock_signal_witness :
  signals (log (snd (RequestDock "z" "Z" "z.png" "/usr/bin/z" worldReady)))
    = signals (log worldReady) ++ [Signal "Docked" "z"] /\
  signals (log (snd (RequestDock "q" "" "" "" worldReady))) = signals (log worldReady).
Proof.
  split.
  - destruct (dock_signal "z" "Z" "z.png" "/usr/bin/z" worldReady (Done true)
                (snd (RequestDock "z" "Z" "z.png" "/usr/bin/z" worldReady)))
      as [Htrue _]; [vm_compute; reflexivity |].
    destruct (Htrue eq_refl) as (ds & entry & info & Hd & Hinfo & Hsig).
    vm_compute in Hd. injection Hd as <- <-. vm_compute in Hinfo.
    injection Hinfo as <-. exact Hsig.
  - apply (dock_signal "q" "" "" "" worldReady (Done false)
             (snd (RequestDock "q" "" "" "" worldReady)));
      [vm_compute; reflexivity | discriminate].
Defined.

Lemma migration_scratch_files_witness :
  List.filter isScratch (log (snd (handleOldConfigFile (handleAcquired worldOld))))
    = [ScratchDesktopFile "a" "A" "a.png" "/usr/bin/a"].
Proof.
  apply (migration_scratch_files (handleAcquired worldOld) oldConf ["a"; "a"; "b"]
           dockSchema); try reflexivity.
  vm_compute. discriminate.
Defined.

Lemma migration_write_back_witness :
  let w1 := snd (handleOldConfigFile (handleAcquired worldOld)) in
  List.filter isLegacyWrite (log w1) = [LegacyWrite 420] /\
  migrationFlag w1 = true /\
  confFile (snd (handleOldConfigFile (handleAcquired worldOldReadOnly))) = Some oldConf.
Proof.
  intros w1.
  destruct (migration_write_back (handleAcquired worldOld) oldConf ["a"; "a"; "b"]
              dockSchema) as (Hlog & _ & Hok); try reflexivity;
    [vm_compute; discriminate |].
  destruct (migration_write_back (handleAcquired worldOldReadOnly) oldConf
              ["a"; "a"; "b"] dockSchema) as (_ & Hro & _); try reflexivity;
    [vm_compute; discriminate |].
  split; [exact Hlog | split; [| exact (Hro eq_refl)]].
  destruct (Hok eq_refl) as (conf' & Hf & Hflag & _).
  unfold migrationFlag. fold w1 in Hf. rewrite Hf, Hflag. reflexivity.
Defined.

Lemma migration_frame_witness :
  manager (snd (handleOldConfigFile (handleAcquired worldOld)))
    = manager (handleAcquired worldOld) /\
  dockState (snd (handleOldConfigFile (handleAcquired worldOld)))
    = dockState (handleAcquired worldOld).
Proof.
  destruct (migration_frame (handleAcquired worldOld) dockSchema eq_refl)
    as (Hm & Hd & _).
  split; [exact Hm | exact Hd].
Defined.

Lemma restart_keeps_list_witness :
  let w1 := snd (NewDockedAppManager worldOld) in
  let w2 := snd (NewDockedAppManager w1) in
  fst (NewDockedAppManager w1) = Done tt /\
  dockedAppList (manager w2) = dockedAppList (manager w1) /\
  persisted w2 = persisted w1.
Proof.
  apply (restart_keeps_list worldOld {[ settingKeyDockedApps := ["b"; "b"; "c"] ]}).
  reflexivity.
Defined.

Lemma IsDocked_after_startup_witness :
  fst (IsDocked "a" (snd (NewDockedAppManager worldOld)))
    = Done (bool_decide ("a" ∈ startupInput worldOld)).
Proof.
  apply (IsDocked_after_startup worldOld {[ settingKeyDockedApps := ["b"; "b"; "c"] ]}).
  reflexivity.
Defined.

Lemma startup_without_backend_witness :
  fst (NewDockedAppManager worldNoBackend) = Done tt /\
  log (snd (NewDockedAppManager worldNoBackend)) = log worldNoBackend.
Proof.
  destruct (startup_without_backend worldNoBackend eq_refl) as (Hd & _ & Hl & _).
  split; [exact Hd | exact Hl].
Defined.

Example request_panics_sample :
  fst (serve (DockRequest "a" "A" "a.png" "/usr/bin/a")
         (snd (NewDockedAppManager worldNoBackend))) = Panic /\
  fst (serve (UndockRequest "a") (snd (NewDockedAppManager worldNoBackend)))
    = Done false.
Proof. vm_compute. split; reflexivity. Qed.

End ManagerMore.
